(** * useLocalStorage: a React state cell mirrored into window.localStorage

    Shallow embedding of the hook [useLocalStorage] and of the part of its
    host it talks to: the browser's [localStorage],
    [JSON], [console.error] and React's [useState] / [useEffect].

    The hook is written in a small state-and-exception monad [M]: JavaScript
    statements run in sequence over a mutable world, [throw] aborts the
    current block, and [try { .. } catch (error) { .. }] resumes in the
    handler with every effect performed so far still in place. *)

From Stdlib Require Import ZArith DecimalString DecimalZ DecimalPos.
From stdpp Require Import base option list gmap strings.

Set Default Proof Using "Type".
Open Scope string_scope.
Open Scope list_scope.

(** ** JavaScript completions *)

(** What a [catch (error)] clause can receive. *)
Inductive Exn : Type :=
  | SyntaxError          (* JSON.parse on malformed text *)
  | TypeError            (* JSON.stringify on a cyclic structure or a BigInt *)
  | SecurityError        (* storage access denied by the browser *)
  | QuotaExceededError   (* storage full *)
  | Thrown (payload : string).  (* a [throw] of user code *)

Inductive Completion (A : Type) : Type :=
  | Normal (a : A)
  | Throw (error : Exn).
Arguments Normal {A} a.
Arguments Throw {A} error.

#[global] Instance Exn_eq_dec : EqDecision Exn.
Proof. solve_decision. Defined.

(** ** The host: values, JSON, storage backend *)

(** The runtime values of the page and the two [JSON] entry points.
    [as_function v] is the test [v instanceof Function] together with what a
    call [v(x)] does; functions stored in cells are taken to be free of side
    effects on the storage and on the cell (they may throw).
    [JSON_stringify] returns [undefined] (here [None]) for values that have
    no JSON text, such as [undefined] itself or a function. *)
Class Runtime (V : Type) : Type := {
  as_function : V -> option (V -> Completion V);
  Object_is : V -> V -> bool;
  JSON_stringify : V -> Completion (option string);
  JSON_parse : string -> Completion V;
}.

(** A fact of ECMAScript's JSON that the hook relies on: a JSON text is never
    the empty string. *)
Class JSONLaws (V : Type) `{Runtime V} : Prop := {
  JSON_stringify_nonempty :
    forall (v : V) (s : string), JSON_stringify v = Normal (Some s) -> s <> "";
}.

(** How the browser's storage misbehaves. [get_fault] and [set_fault] say,
    from the present content and the arguments, whether [getItem] and
    [setItem] throw and what; the content itself is a finite map. *)
Record Backend : Type := {
  get_fault : gmap string string -> string -> option Exn;
  set_fault : gmap string string -> string -> string -> option Exn;
}.

(** A backend that never fails. *)
Definition reliable : Backend :=
  {| get_fault := fun _ _ => None; set_fault := fun _ _ _ => None |}.

(** [ToString] as applied by [setItem] to its second argument:
    [undefined] becomes the text "undefined". *)
Definition ToString (text : option string) : string :=
  default "undefined" text.

(** ** The monad of the hook's code *)

Section Monad.

Context {V : Type}.

(** The calls the code makes on its host, as an observer sees them. *)

Inductive Event : Type :=
  | EvGetItem (key : string)
  | EvSetItem (key : string) (text : string)
  | EvParse (text : string)
  | EvStringify (v : V)
  | EvCall (f x : V)
  | EvSetStoredValue (v : V)
  | EvConsoleError (message : string) (error : Exn).

(** The world a hook instance runs in: the content of [localStorage], the
    updates handed to React's setter and not yet rendered, and the calls
    made so far, oldest first. *)
Record World : Type := mkWorld {
  storage : gmap string string;
  pending : list V;
  trace : list Event;
}.

Definition M (A : Type) : Type := World -> Completion A * World.

Definition ret {A} (a : A) : M A := fun w => (Normal a, w).

Definition bind {A B} (m : M A) (k : A -> M B) : M B :=
  fun w =>
    match m w with
    | (Normal a, w') => k a w'
    | (Throw e, w') => (Throw e, w')
    end.

Definition try_catch {A} (body : M A) (handler : Exn -> M A) : M A :=
  fun w =>
    match body w with
    | (Normal a, w') => (Normal a, w')
    | (Throw e, w') => handler e w'
    end.

Definition record (ev : Event) (w : World) : World :=
  mkWorld (storage w) (pending w) (trace w ++ [ev]).

Definition lift {A} (ev : Event) (c : Completion A) : M A :=
  fun w => (c, record ev w).

End Monad.

Notation "x <- m ;; k" := (bind m (fun x => k))
  (at level 100, m at next level, right associativity).
Notation "m ;; k" := (bind m (fun _ => k))
  (at level 100, right associativity).

Section Hook.

Context {V : Type} `{Runtime V}.
Variable backend : Backend.

Abbreviation M := (M (V := V)).
Abbreviation Event := (Event (V := V)).
Abbreviation World := (World (V := V)).

(** [window.localStorage.getItem(key)]: [null] (here [None]) when absent.
    A storage the page may not use throws on the access to
    [window.localStorage] already; the fault is placed at the call, which
    here is the only thing that follows the access. *)
Definition getItem (key : string) : M (option string) :=
  fun w =>
    match get_fault backend (storage w) key with
    | Some e => (Throw e, record (EvGetItem key) w)
    | None => (Normal (storage w !! key), record (EvGetItem key) w)
    end.

(** [window.localStorage.setItem(key, text)], the argument already
    evaluated. A fault of the access to [window.localStorage], which
    JavaScript evaluates before the argument, is placed at the call as well:
    the two orders differ only in whether [JSON.stringify] has run when the
    access fails. *)
Definition setItem (key : string) (text : option string) : M unit :=
  fun w =>
    let s := ToString text in
    match set_fault backend (storage w) key s with
    | Some e => (Throw e, record (EvSetItem key s) w)
    | None =>
        (Normal tt,
         mkWorld (<[key := s]> (storage w)) (pending w)
                 (trace w ++ [EvSetItem key s]))
    end.

Definition parse (text : string) : M V :=
  lift (EvParse text) (JSON_parse text).

Definition stringify (v : V) : M (option string) :=
  lift (EvStringify v) (JSON_stringify v).

Definition call (fv : V) (f : V -> Completion V) (x : V) : M V :=
  lift (EvCall fv x) (f x).

Definition console_error (message : string) (error : Exn) : M unit :=
  fun w => (Normal tt, record (EvConsoleError message error) w).

(** React's state setter: the update is queued and applied by the next
    render. *)
Definition setStoredValue (v : V) : M unit :=
  fun w =>
    (Normal tt,
     mkWorld (storage w) (pending w ++ [v]) (trace w ++ [EvSetStoredValue v])).

(** ** The hook *)

(** [item ? JSON.parse(item) : initialValue]: [null] and the empty string
    are falsy. *)
Definition parsed_or_initial (item : option string) (initialValue : V) : M V :=
  match item with
  | Some text => if bool_decide (text = "") then ret initialValue else parse text
  | None => ret initialValue
  end.

(** The lazy initializer passed to [useState]. *)
Definition initializer (key : string) (initialValue : V) : M V :=
  try_catch
    (item <- getItem key ;;
     parsed_or_initial item initialValue)
    (fun error =>
       console_error ("Erro ao recuperar " +:+ key +:+ " do localStorage:") error ;;
       ret initialValue).

(** The two statements of [setValue] that save [valueToStore]: into the
    state, then into [localStorage]. *)
Definition store (key : string) (valueToStore : V) : M unit :=
  setStoredValue valueToStore ;;
  text <- stringify valueToStore ;;
  setItem key text.

(** [setValue], as closed over the [key] and the [storedValue] of the render
    that created it: its [try] block, its [catch] clause, and the two
    together. *)
Definition setValue_try (key : string) (storedValue : V) (value : V) : M unit :=
  valueToStore <-
    match as_function value with
    | Some f => call value f storedValue
    | None => ret value
    end ;;
  store key valueToStore.

Definition setValue_catch (key : string) (error : Exn) : M unit :=
  console_error ("Erro ao salvar " +:+ key +:+ " no localStorage:") error.

Definition setValue (key : string) (storedValue : V) (value : V) : M unit :=
  try_catch (setValue_try key storedValue value) (setValue_catch key).

(** The body of the effect with dependencies [[key, initialValue]]. *)
Definition keySync (key : string) (initialValue : V) : M unit :=
  try_catch
    (item <- getItem key ;;
     v <- parsed_or_initial item initialValue ;;
     setStoredValue v)
    (fun error =>
       console_error ("Erro ao atualizar " +:+ key +:+ " do localStorage:") error ;;
       setStoredValue initialValue).

(** ** React: renders of one hook instance *)

(** What one render of the hook leaves behind: the [storedValue] it returned
    and the arguments it was called with, which are both the closure of the
    returned [setValue] and the dependencies of the effect. *)
Record Render : Type := mkRender {
  storedValue : V;
  hook_key : string;
  hook_initialValue : V;
}.

(** An update given to a [useState] setter is a next state, or, when it is
    a function, is applied to the state before it. *)
Definition apply_update (state update : V) : Completion V :=
  match as_function update with
  | Some f => f state
  | None => Normal update
  end.

Fixpoint reduce_updates (state : V) (queue : list V) : Completion V :=
  match queue with
  | [] => Normal state
  | update :: queue' =>
      match apply_update state update with
      | Normal state' => reduce_updates state' queue'
      | Throw e => Throw e
      end
  end.

(** [useState] on a render after the first. *)
Definition useState_again (state : V) : M V :=
  fun w => (reduce_updates state (pending w), mkWorld (storage w) [] (trace w)).

Definition deps_changed (r : Render) (key : string) (initialValue : V) : bool :=
  negb (bool_decide (hook_key r = key) && Object_is (hook_initialValue r) initialValue).

(** First render, then its effect. *)
Definition mount (key : string) (initialValue : V) : M Render :=
  v <- initializer key initialValue ;;
  keySync key initialValue ;;
  ret (mkRender v key initialValue).

(** A later render, then the effect when a dependency has changed. *)
Definition rerender (r : Render) (key : string) (initialValue : V) : M Render :=
  v <- useState_again (storedValue r) ;;
  (if deps_changed r key initialValue then keySync key initialValue else ret tt) ;;
  ret (mkRender v key initialValue).

(** A call of the [setValue] returned by render [r]. *)
Definition write (r : Render) (value : V) : M unit :=
  setValue (hook_key r) (storedValue r) value.

(** ** Counting side effects *)

Definition is_cell_update (ev : Event) : bool :=
  match ev with EvSetStoredValue _ => true | _ => false end.

Definition is_storage_mutation (ev : Event) : bool :=
  match ev with EvSetItem _ _ => true | _ => false end.

Definition is_decode (ev : Event) : bool :=
  match ev with EvParse _ => true | _ => false end.

Definition is_diagnostic (ev : Event) : bool :=
  match ev with EvConsoleError _ _ => true | _ => false end.

Definition count (p : Event -> bool) (evs : list Event) : nat :=
  length (List.filter p evs).

(** The calls made by a computation: what it appended to the trace. *)
Definition emitted (w w' : World) : list Event :=
  drop (length (trace w)) (trace w').

End Hook.

(** ** Vocabulary of the properties *)

(** A value survives the codec: it is data, not a function, it has a JSON
    text, and that text parses to a value equal to it. *)
Definition serializable {V : Type} `{Runtime V} `{Equiv V} (v : V) : Prop :=
  as_function v = None /\
  exists text decoded,
    JSON_stringify v = Normal (Some text) /\
    JSON_parse text = Normal decoded /\
    decoded ≡ v.

(** The world as a newly mounted hook instance finds it: the same storage,
    no update of its own queued yet. *)
Definition rebind {V : Type} (w : World (V := V)) : World (V := V) :=
  mkWorld (storage w) [] (trace w).

(** A completion that tells the caller of [setValue] that the write failed.
    [setValue] has no [return] statement; all its caller can observe is
    whether the call returned or threw. *)
Definition returns_failure (c : Completion unit) : Prop :=
  c <> Normal tt.

(** Hydration of [key] meets a failure carrying [e]: [getItem] throws, or
    the slot holds a non-empty text that [JSON.parse] rejects. *)
Inductive hydration_fails {V : Type} `{Runtime V} (backend : Backend)
    (key : string) (w : World (V := V)) (e : Exn) : Prop :=
  | get_fails :
      get_fault backend (storage w) key = Some e ->
      hydration_fails backend key w e
  | decode_fails (text : string) :
      get_fault backend (storage w) key = None ->
      storage w !! key = Some text ->
      text <> "" ->
      JSON_parse text = @Throw V e ->
      hydration_fails backend key w e.

(** From [w] to [w'] the storage was only read: same content, and no call of
    [setItem] among the calls made. *)
Definition reads_only {V : Type} (w w' : World (V := V)) : Prop :=
  storage w' = storage w /\
  exists evs : list Event,
    trace w' = trace w ++ evs /\ count is_storage_mutation evs = 0.

(** A run of renders with no call of [setValue] in between. *)
Fixpoint renders {V : Type} `{Runtime V} (backend : Backend)
    (r : Render (V := V)) (args : list (string * V)) : M (V := V) (Render (V := V)) :=
  match args with
  | [] => ret r
  | (key, initialValue) :: args' =>
      bind (rerender backend r key initialValue) (fun r' => renders backend r' args')
  end.

(** ** A page to run the hook on

    A small runtime for evaluating the hook: [undefined], [null], booleans,
    integers, [BigInt]s and three functions, with the JSON of exactly these
    values. *)
Module Js.

Inductive Fn : Type :=
  | Succ    (* x => typeof x === "number" ? x + 1 : x *)
  | Boom    (* () => { throw "boom" } *)
  | Self.   (* const self = () => self *)

Inductive Val : Type :=
  | Undefined
  | Null
  | Bool (b : bool)
  | Num (n : Z)
  | BigInt (n : Z)
  | Fun (f : Fn).

#[global] Instance Fn_eq_dec : EqDecision Fn.
Proof. solve_decision. Defined.
#[global] Instance Val_eq_dec : EqDecision Val.
Proof. solve_decision. Defined.

Definition call_fn (f : Fn) (x : Val) : Completion Val :=
  match f with
  | Succ => Normal (match x with Num n => Num (n + 1) | _ => x end)
  | Boom => Throw (Thrown "boom")
  | Self => Normal (Fun Self)
  end.

Definition instanceof_Function (v : Val) : option (Val -> Completion Val) :=
  match v with
  | Fun f => Some (call_fn f)
  | _ => None
  end.

Definition decimal (n : Z) : string := NilZero.string_of_int (Z.to_int n).

(** [JSON.stringify]: no text for [undefined] and functions, a [TypeError]
    for a [BigInt]. *)
Definition stringify_val (v : Val) : Completion (option string) :=
  match v with
  | Undefined => Normal None
  | Null => Normal (Some "null")
  | Bool true => Normal (Some "true")
  | Bool false => Normal (Some "false")
  | Num n => Normal (Some (decimal n))
  | BigInt _ => Throw TypeError
  | Fun _ => Normal None
  end.

(** [JSON.parse] on the texts above; anything else is a [SyntaxError]. *)
Definition parse_text (s : string) : Completion Val :=
  if bool_decide (s = "null") then Normal Null
  else if bool_decide (s = "true") then Normal (Bool true)
  else if bool_decide (s = "false") then Normal (Bool false)
  else
    match NilZero.int_of_string s with
    | Some d =>
        if bool_decide (decimal (Z.of_int d) = s) then Normal (Num (Z.of_int d))
        else Throw SyntaxError
    | None => Throw SyntaxError
    end.

#[global] Instance runtime : Runtime Val := {|
  as_function := instanceof_Function;
  Object_is := fun a b => bool_decide (a = b);
  JSON_stringify := stringify_val;
  JSON_parse := parse_text;
|}.

(** A storage that is full: every [setItem] throws. *)
Definition full : Backend :=
  {| get_fault := fun _ _ => None;
     set_fault := fun _ _ _ => Some QuotaExceededError |}.

(** A storage the page may not touch. *)
Definition denied : Backend :=
  {| get_fault := fun _ _ => Some SecurityError;
     set_fault := fun _ _ _ => Some SecurityError |}.

(** The codec's equality on these values is plain equality. *)
#[global] Instance Val_equiv : Equiv Val := eq.

(** A page just loaded: the given storage, nothing queued, nothing called. *)
Definition world0 (content : gmap string string) : World (V := Val) :=
  mkWorld content [] [].

Definition empty : World (V := Val) := world0 ∅.

(** A slot that does not hold JSON, and one that holds the empty string. *)
Definition corrupted : World (V := Val) := world0 (<["user" := "not-json"]> ∅).
Definition blank : World (V := Val) := world0 (<["user" := ""]> ∅).

(** Two counters kept under two keys. *)
Definition two_slots : World (V := Val) :=
  world0 (<["a" := "1"]> (<["b" := "2"]> ∅)).

(** A settled render of a counter at 0 kept under the key "count". *)
Definition counter : Render (V := Val) := mkRender (Num 0) "count" (Num 0).

(** A component mounts a counter, lets the mount effect settle, and then in
    one event handler calls the [setValue] of that render twice with
    [x => x + 1]; React renders again. *)
Definition two_increments (backend : Backend) : M (V := Val) (Render (V := Val)) :=
  r <- mount backend "count" (Num 0) ;;
  r0 <- rerender backend r "count" (Num 0) ;;
  write backend r0 (Fun Succ) ;;
  write backend r0 (Fun Succ) ;;
  rerender backend r0 "count" (Num 0).

(** The same, with a render between the two calls, the second call made
    through the [setValue] of that render. *)
Definition two_increments_rendered (backend : Backend) :
    M (V := Val) (Render (V := Val)) :=
  r <- mount backend "count" (Num 0) ;;
  r0 <- rerender backend r "count" (Num 0) ;;
  write backend r0 (Fun Succ) ;;
  r1 <- rerender backend r0 "count" (Num 0) ;;
  write backend r1 (Fun Succ) ;;
  rerender backend r1 "count" (Num 0).

(** A component shows the counter kept under "a", then is given the key
    "b". *)
Definition switch_key (backend : Backend) : M (V := Val) (Render (V := Val)) :=
  r <- mount backend "a" (Num 0) ;;
  renders backend r [("a", Num 0); ("b", Num 0)].

End Js.

(** * The pages: login, registration, and the application that hosts them *)

(** ** JavaScript strings and regular expressions *)

(** The text of a form field: a sequence of UTF-16 code units. *)
Module JsString.

Definition t : Type := list N.

(** The code units of a text written in ASCII. *)
Definition of_ascii (s : string) : t :=
  map Ascii.N_of_ascii (String.list_ascii_of_string s).

(** [\s]: the WhiteSpace and LineTerminator code points of ECMAScript, which
    are also what [trim] removes. *)
Definition is_white_space (c : N) : bool :=
  existsb (N.eqb c)
    [9; 10; 11; 12; 13; 32; 160; 5760; 8232; 8233; 8239; 8287; 12288; 65279]%N
  || ((8192 <=? c)%N && (c <=? 8202)%N).

Fixpoint trimStart (s : t) : t :=
  match s with
  | c :: s' => if is_white_space c then trimStart s' else s
  | [] => []
  end.

Definition trimEnd (s : t) : t := rev (trimStart (rev s)).

Definition trim (s : t) : t := trimEnd (trimStart s).

(** [!s] for a string: only the empty string is falsy. *)
Definition falsy (s : t) : bool :=
  match s with [] => true | _ => false end.

End JsString.

(** Regular expressions without groups, anchors or flags, and
    [RegExp.prototype.test] for them: is there a substring that matches? *)
Module RegExp.

Inductive t : Type :=
  | Void
  | Eps
  | Class (p : N -> bool)
  | Cat (r1 r2 : t)
  | Alt (r1 r2 : t)
  | Star (r : t).

(** The strings a pattern matches from end to end. *)
Inductive lang : t -> list N -> Prop :=
  | lang_eps : lang Eps []
  | lang_class p c : p c = true -> lang (Class p) [c]
  | lang_cat r1 r2 s1 s2 :
      lang r1 s1 -> lang r2 s2 -> lang (Cat r1 r2) (s1 ++ s2)
  | lang_alt_l r1 r2 s : lang r1 s -> lang (Alt r1 r2) s
  | lang_alt_r r1 r2 s : lang r2 s -> lang (Alt r1 r2) s
  | lang_star_nil r : lang (Star r) []
  | lang_star_cons r s1 s2 :
      lang r s1 -> lang (Star r) s2 -> lang (Star r) (s1 ++ s2).

Fixpoint nullable (r : t) : bool :=
  match r with
  | Void => false
  | Eps => true
  | Class _ => false
  | Cat r1 r2 => nullable r1 && nullable r2
  | Alt r1 r2 => nullable r1 || nullable r2
  | Star _ => true
  end.

(** What is left of the pattern after it has read [c]. *)
Fixpoint deriv (c : N) (r : t) : t :=
  match r with
  | Void => Void
  | Eps => Void
  | Class p => if p c then Eps else Void
  | Cat r1 r2 =>
      Alt (Cat (deriv c r1) r2) (if nullable r1 then deriv c r2 else Void)
  | Alt r1 r2 => Alt (deriv c r1) (deriv c r2)
  | Star r1 => Cat (deriv c r1) (Star r1)
  end.

Fixpoint accepts (r : t) (s : list N) : bool :=
  match s with
  | [] => nullable r
  | c :: s' => accepts (deriv c r) s'
  end.

Definition any : t := Class (fun _ => true).
Definition char (c : N) : t := Class (N.eqb c).
Definition plus (r : t) : t := Cat r (Star r).

(** [\S] *)
Definition non_space : t := Class (fun c => negb (JsString.is_white_space c)).

(** [r.test(s)] *)
Definition test (r : t) (s : list N) : bool :=
  accepts (Cat (Star any) (Cat r (Star any))) s.

End RegExp.

(** [/\S+@\S+\.\S+/], the pattern both pages test the email with. *)
Definition email_pattern : RegExp.t :=
  RegExp.Cat (RegExp.plus RegExp.non_space)
    (RegExp.Cat (RegExp.char 64)
       (RegExp.Cat (RegExp.plus RegExp.non_space)
          (RegExp.Cat (RegExp.char 46) (RegExp.plus RegExp.non_space)))).

(** ** Event handlers

    A handler reads the state its render closed over and calls setters,
    callbacks of the parent and the router; it is embedded as the list of
    the calls it makes, with the completion of the calls that can throw
    given from outside. *)
Module Handler.

Section Calls.

(** [E]: the type of the page's [errors]; [P]: the calls its parent's
    callback makes. *)
Context {E P : Type}.

Inductive Call : Type :=
  | PreventDefault
  | SetErrors (errors : E)
  | SetIsSubmitting (b : bool)
  | Timeout (ms : N)
  | Navigate (to : string)
  | Parent (c : P).

Definition Act (A : Type) : Type := Completion A * list Call.

Definition ret {A} (a : A) : Act A := (Normal a, []).

Definition bind {A B} (m : Act A) (k : A -> Act B) : Act B :=
  match m with
  | (Normal a, calls) => let (c, calls') := k a in (c, calls ++ calls')
  | (Throw e, calls) => (Throw e, calls)
  end.

Definition emit (c : Call) : Act unit := (Normal tt, [c]).

Definition try_catch {A} (body : Act A) (handler : Exn -> Act A) : Act A :=
  match body with
  | (Normal a, calls) => (Normal a, calls)
  | (Throw e, calls) => let (c, calls') := handler e in (c, calls ++ calls')
  end.

(** [try { body } finally { cleanup }] *)
Definition try_finally {A} (body : Act A) (cleanup : Act unit) : Act A :=
  match body, cleanup with
  | (c, calls), (Normal _, calls') => (c, calls ++ calls')
  | (_, calls), (Throw e, calls') => (Throw e, calls ++ calls')
  end.

(** A call of the callback the parent passed in. *)
Definition parent (m : Completion unit * list P) : Act unit :=
  (fst m, map Parent (snd m)).

(** [navigate(to)] of the router, which may throw. *)
Definition navigate (router : string -> Completion unit) (to : string) : Act unit :=
  (router to, [Navigate to]).

(** What the calls of a handler amount to: the calls made by the parent's
    callback, and the [isSubmitting] and [errors] states once React has
    applied the setter calls in order. *)
Definition parent_calls (calls : list Call) : list P :=
  flat_map (fun c => match c with Parent p => [p] | _ => [] end) calls.

Definition isSubmitting_after (isSubmitting : bool) (calls : list Call) : bool :=
  fold_left (fun b c => match c with SetIsSubmitting b' => b' | _ => b end)
    calls isSubmitting.

Definition errors_after (errors : E) (calls : list Call) : E :=
  fold_left (fun e c => match c with SetErrors e' => e' | _ => e end)
    calls errors.

Definition navigations (calls : list Call) : list string :=
  flat_map (fun c => match c with Navigate to => [to] | _ => [] end) calls.

End Calls.

Arguments Call : clear implicits.
Arguments Act : clear implicits.

End Handler.

Declare Scope handler_scope.
Delimit Scope handler_scope with handler.
Notation "x <- m ;; k" := (Handler.bind m (fun x => k))
  (at level 100, m at next level, right associativity) : handler_scope.
Notation "m ;; k" := (Handler.bind m (fun _ => k))
  (at level 100, right associativity) : handler_scope.

(** ** App *)

Module App.

(** The [user] state: [{ name?: string; email: string } | null]. *)
Record User : Type := mkUser {
  name : option JsString.t;
  email : JsString.t;
}.

Inductive Call : Type :=
  | SetUser (user : option User)
  | ConsoleLog (message : string) (userData : User).

Definition handleLogin (email : JsString.t) : Completion unit * list Call :=
  (Normal tt, [SetUser (Some (mkUser None email))]).

Definition handleRegister (name email : JsString.t) :
    Completion unit * list Call :=
  (Normal tt, [ConsoleLog "Usuário registrado:" (mkUser (Some name) email)]).

Definition handleLogout : Completion unit * list Call :=
  (Normal tt, [SetUser None]).

(** The [user] state once React has applied the calls of [setUser]. *)
Definition user_after (user : option User) (calls : list Call) : option User :=
  fold_left (fun u c => match c with SetUser u' => u' | _ => u end) calls user.

End App.

(** A property of an object literal is a key once it has been assigned. *)
Definition key_of {A} (key : string) (property : option A) : list string :=
  match property with
  | Some _ => [key]
  | None => []
  end.

(** ** LoginPage *)

Module LoginPage.

Record LoginFormData : Type := mkData {
  email : JsString.t;
  password : JsString.t;
}.

Module Errors.
Record LoginFormErrors : Type := mk {
  email : option string;
  password : option string;
  general : option string;
}.
Definition none : LoginFormErrors := mk None None None.
End Errors.

(** [Object.keys(errors)]: the properties that were assigned, in the order
    in which [validateForm] assigns them. *)
Definition Object_keys (errors : Errors.LoginFormErrors) : list string :=
  key_of "email" (Errors.email errors) ++
  key_of "password" (Errors.password errors) ++
  key_of "general" (Errors.general errors).

Definition email_error (formData : LoginFormData) : option string :=
  if JsString.falsy (email formData) then Some "Email é obrigatório"
  else if negb (RegExp.test email_pattern (email formData))
       then Some "Email inválido"
  else None.

Definition password_error (formData : LoginFormData) : option string :=
  if JsString.falsy (password formData) then Some "Senha é obrigatória"
  else if (length (password formData) <? 6)%nat
       then Some "Senha deve ter pelo menos 6 caracteres"
  else None.

(** The object built in [newErrors]. *)
Definition newErrors (formData : LoginFormData) : Errors.LoginFormErrors :=
  Errors.mk (email_error formData) (password_error formData) None.

(** [Object.keys(newErrors).length === 0] *)
Definition valid (formData : LoginFormData) : bool :=
  (length (Object_keys (newErrors formData)) =? 0)%nat.

Section Handlers.

Context {P : Type}.
Local Open Scope handler_scope.

Abbreviation Act := (Handler.Act Errors.LoginFormErrors P).

Definition validateForm (formData : LoginFormData) : Act bool :=
  Handler.emit (Handler.SetErrors (newErrors formData)) ;;
  Handler.ret (valid formData).

Definition handleSubmit
    (onLogin : JsString.t -> Completion unit * list P)
    (router : string -> Completion unit)
    (formData : LoginFormData) : Act unit :=
  Handler.emit Handler.PreventDefault ;;
  valid <- validateForm formData ;;
  if negb valid then Handler.ret tt
  else
    Handler.emit (Handler.SetIsSubmitting true) ;;
    Handler.try_finally
      (Handler.try_catch
         (Handler.emit (Handler.Timeout 1000) ;;
          Handler.parent (onLogin (email formData)) ;;
          Handler.navigate router "/")
         (fun _ =>
            Handler.emit
              (Handler.SetErrors
                 (Errors.mk None None
                    (Some "Falha na autenticação. Verifique seu email e senha.")))))
      (Handler.emit (Handler.SetIsSubmitting false)).

End Handlers.

End LoginPage.

(** ** RegisterPage *)

Module RegisterPage.

Record RegisterFormData : Type := mkData {
  name : JsString.t;
  email : JsString.t;
  password : JsString.t;
  confirmPassword : JsString.t;
}.

Module Errors.
Record RegisterFormErrors : Type := mk {
  name : option string;
  email : option string;
  password : option string;
  confirmPassword : option string;
  general : option string;
}.
Definition none : RegisterFormErrors := mk None None None None None.
End Errors.

Definition Object_keys (errors : Errors.RegisterFormErrors) : list string :=
  key_of "name" (Errors.name errors) ++
  key_of "email" (Errors.email errors) ++
  key_of "password" (Errors.password errors) ++
  key_of "confirmPassword" (Errors.confirmPassword errors) ++
  key_of "general" (Errors.general errors).

Definition name_error (formData : RegisterFormData) : option string :=
  if JsString.falsy (JsString.trim (name formData))
  then Some "Nome é obrigatório" else None.

Definition email_error (formData : RegisterFormData) : option string :=
  if JsString.falsy (email formData) then Some "Email é obrigatório"
  else if negb (RegExp.test email_pattern (email formData))
       then Some "Email inválido"
  else None.

Definition password_error (formData : RegisterFormData) : option string :=
  if JsString.falsy (password formData) then Some "Senha é obrigatória"
  else if (length (password formData) <? 6)%nat
       then Some "Senha deve ter pelo menos 6 caracteres"
  else None.

Definition confirmPassword_error (formData : RegisterFormData) : option string :=
  if bool_decide (password formData <> confirmPassword formData)
  then Some "As senhas não conferem" else None.

Definition general_error (acceptTerms : bool) : option string :=
  if negb acceptTerms
  then Some "Você deve aceitar os termos e condições para continuar"
  else None.

Definition newErrors (formData : RegisterFormData) (acceptTerms : bool) :
    Errors.RegisterFormErrors :=
  Errors.mk (name_error formData) (email_error formData)
    (password_error formData) (confirmPassword_error formData)
    (general_error acceptTerms).

(** [Object.keys(newErrors).length === 0] *)
Definition valid (formData : RegisterFormData) (acceptTerms : bool) : bool :=
  (length (Object_keys (newErrors formData acceptTerms)) =? 0)%nat.

Section Handlers.

Context {P : Type}.
Local Open Scope handler_scope.

Abbreviation Act := (Handler.Act Errors.RegisterFormErrors P).

Definition validateForm (formData : RegisterFormData) (acceptTerms : bool) :
    Act bool :=
  Handler.emit (Handler.SetErrors (newErrors formData acceptTerms)) ;;
  Handler.ret (valid formData acceptTerms).

Definition handleSubmit
    (onRegister : JsString.t -> JsString.t -> Completion unit * list P)
    (router : string -> Completion unit)
    (formData : RegisterFormData) (acceptTerms : bool) : Act unit :=
  Handler.emit Handler.PreventDefault ;;
  valid <- validateForm formData acceptTerms ;;
  if negb valid then Handler.ret tt
  else
    Handler.emit (Handler.SetIsSubmitting true) ;;
    Handler.try_finally
      (Handler.try_catch
         (Handler.emit (Handler.Timeout 1500) ;;
          Handler.parent (onRegister (name formData) (email formData)) ;;
          Handler.navigate router "/login?registered=true")
         (fun _ =>
            Handler.emit
              (Handler.SetErrors
                 (Errors.mk None None None None
                    (Some "Falha no cadastro. Por favor, tente novamente.")))))
      (Handler.emit (Handler.SetIsSubmitting false)).

End Handlers.

End RegisterPage.

(** * Properties *)

Section Properties.

Context {V : Type} `{Runtime V}.
Implicit Types (backend : Backend) (w : World (V := V)) (r : Render (V := V)).
Implicit Types (v value fallback : V) (key : string).

Lemma emitted_app w sto pend evs :
  emitted w (mkWorld sto pend (trace w ++ evs)) = evs.
Proof. unfold emitted; simpl. by rewrite drop_app_length. Qed.

Lemma filter_none (p : Event (V := V) -> bool) (evs : list Event) :
  (forall ev, In ev evs -> p ev = false) -> List.filter p evs = [].
Proof.
  induction evs as [|ev evs IH]; simpl; [done|]. intros Hp.
  rewrite (Hp ev) by auto. apply IH. auto.
Qed.

Lemma setValue_try_literal backend key sv v w :
  as_function v = None ->
  setValue_try backend key sv v w = store backend key v w.
Proof. intros Hv. unfold setValue_try, store, bind at 1, ret. by rewrite Hv. Qed.

Lemma setValue_try_function backend key sv v f w :
  as_function v = Some f ->
  setValue_try backend key sv v w =
    match f sv with
    | Normal u => store backend key u (record (EvCall v sv) w)
    | Throw e => (Throw e, record (EvCall v sv) w)
    end.
Proof.
  intros Hv. unfold setValue_try, store, bind at 1, call, lift. rewrite Hv.
  by destruct (f sv).
Qed.

(** The three ways [store] can end. *)
Lemma store_cases backend key u w :
  store backend key u w =
    match JSON_stringify u with
    | Throw e =>
        (Throw e,
         mkWorld (storage w) (pending w ++ [u])
                 (trace w ++ [EvSetStoredValue u; EvStringify u]))
    | Normal text =>
        match set_fault backend (storage w) key (ToString text) with
        | Some e =>
            (Throw e,
             mkWorld (storage w) (pending w ++ [u])
                     (trace w ++ [EvSetStoredValue u; EvStringify u;
                                  EvSetItem key (ToString text)]))
        | None =>
            (Normal tt,
             mkWorld (<[key := ToString text]> (storage w)) (pending w ++ [u])
                     (trace w ++ [EvSetStoredValue u; EvStringify u;
                                  EvSetItem key (ToString text)]))
        end
    end.
Proof.
  unfold store, bind, setStoredValue, stringify, lift, setItem, record; simpl.
  destruct (JSON_stringify u) as [text|e]; simpl.
  - destruct (set_fault _ _ _ _); by rewrite <- !app_assoc.
  - by rewrite <- !app_assoc.
Qed.

Lemma setValue_unfold backend key sv value w :
  setValue backend key sv value w =
    match setValue_try backend key sv value w with
    | (Normal a, w1) => (Normal a, w1)
    | (Throw e, w1) =>
        (Normal tt,
         record (EvConsoleError ("Erro ao salvar " +:+ key +:+ " no localStorage:") e) w1)
    end.
Proof. reflexivity. Qed.

(** Every completion of a write, with the calls it made. *)
Lemma write_cases backend r value w :
  let key := hook_key r in
  let failed e := EvConsoleError ("Erro ao salvar " +:+ key +:+ " no localStorage:") e in
  exists (pre : list Event) (u : option V),
    (match as_function value with
     | Some f =>
         pre = [EvCall value (storedValue r)] /\
         match f (storedValue r) with
         | Normal u' => u = Some u'
         | Throw _ => u = None
         end
     | None => pre = [] /\ u = Some value
     end) /\
    match u with
    | None =>
        exists e,
          write backend r value w =
            (Normal tt, mkWorld (storage w) (pending w) (trace w ++ pre ++ [failed e]))
    | Some u =>
        match JSON_stringify u with
        | Throw e =>
            write backend r value w =
              (Normal tt,
               mkWorld (storage w) (pending w ++ [u])
                 (trace w ++ pre ++ [EvSetStoredValue u; EvStringify u; failed e]))
        | Normal text =>
            match set_fault backend (storage w) key (ToString text) with
            | Some e =>
                write backend r value w =
                  (Normal tt,
                   mkWorld (storage w) (pending w ++ [u])
                     (trace w ++ pre ++
                        [EvSetStoredValue u; EvStringify u;
                         EvSetItem key (ToString text); failed e]))
            | None =>
                write backend r value w =
                  (Normal tt,
                   mkWorld (<[key := ToString text]> (storage w)) (pending w ++ [u])
                     (trace w ++ pre ++
                        [EvSetStoredValue u; EvStringify u;
                         EvSetItem key (ToString text)]))
            end
        end
    end.
Proof.
  intros key failed. unfold write. rewrite setValue_unfold. fold key.
  destruct (as_function value) as [f|] eqn:Hf.
  - rewrite (setValue_try_function _ _ _ _ f) by done.
    destruct (f (storedValue r)) as [u|e] eqn:Hcall.
    + exists [EvCall value (storedValue r)], (Some u). split; [done|].
      rewrite store_cases. simpl.
      destruct (JSON_stringify u) as [text|e]; simpl.
      * destruct (set_fault _ _ _ _); unfold record; simpl;
          by rewrite <- ?app_assoc.
      * unfold record; simpl. by rewrite <- ?app_assoc.
    + exists [EvCall value (storedValue r)], None. split; [done|].
      exists e. unfold record; simpl. by rewrite <- ?app_assoc.
  - rewrite setValue_try_literal by done.
    exists [], (Some value). split; [done|].
    rewrite store_cases. simpl.
    destruct (JSON_stringify value) as [text|e]; simpl.
    + destruct (set_fault _ _ _ _); unfold record; simpl;
        by rewrite <- ?app_assoc.
    + unfold record; simpl. by rewrite <- ?app_assoc.
Qed.

(** *** Renders *)

Lemma reduce_updates_snoc state queue state' v :
  reduce_updates state queue = Normal state' ->
  reduce_updates state (queue ++ [v]) = apply_update state' v.
Proof.
  revert state. induction queue as [|a queue IH]; intros state; simpl.
  - intros [= ->]. by destruct (apply_update state' v).
  - destruct (apply_update state a); [apply IH | done].
Qed.

Lemma apply_update_literal state v :
  as_function v = None -> apply_update state v = Normal v.
Proof. unfold apply_update. by intros ->. Qed.

(** The effect never throws, leaves the storage alone and queues one
    update. *)
Lemma keySync_total backend key fallback w :
  exists v evs,
    keySync backend key fallback w =
      (Normal tt, mkWorld (storage w) (pending w ++ [v]) (trace w ++ evs)) /\
    count is_storage_mutation evs = 0.
Proof.
  unfold keySync, try_catch, bind, getItem, parsed_or_initial, console_error,
    setStoredValue, parse, lift, ret, record; simpl.
  destruct (get_fault _ _ _) as [e|]; simpl.
  { eexists _, [_; _; _]. rewrite <- !app_assoc. by split. }
  destruct (storage w !! key) as [text|]; simpl.
  - case_bool_decide; simpl.
    + eexists _, [_; _]. rewrite <- !app_assoc. by split.
    + destruct (JSON_parse text); simpl.
      * eexists _, [_; _; _]. rewrite <- !app_assoc. by split.
      * eexists _, [_; _; _; _]. rewrite <- !app_assoc. by split.
  - eexists _, [_; _]. rewrite <- !app_assoc. by split.
Qed.

(** A render returns the queued updates applied in order to the state of the
    render before it, whatever its arguments. *)
Lemma rerender_value backend r key fallback w state :
  reduce_updates (storedValue r) (pending w) = Normal state ->
  exists w',
    rerender backend r key fallback w = (Normal (mkRender state key fallback), w') /\
    storage w' = storage w.
Proof.
  intros Hq. unfold rerender, bind at 1, useState_again. rewrite Hq.
  destruct (deps_changed r key fallback).
  - destruct (keySync_total backend key fallback
                (mkWorld (storage w) [] (trace w))) as (v & evs & Hk & _).
    unfold bind, ret. rewrite Hk. eauto.
  - unfold bind, ret. eauto.
Qed.

(** *** Writes *)

(** C9. A call of [setValue] always returns normally, whatever value or
    updater it is given and whatever [JSON.stringify] and [setItem] do: when
    its [try] block throws, the world is the one the block left, plus one
    [console.error] carrying the exception; otherwise it is the one the
    block left. *)
Theorem setValue_returns_normally backend r value w :
  exists w',
    write backend r value w = (Normal tt, w') /\
    match setValue_try backend (hook_key r) (storedValue r) value w with
    | (Normal _, w1) => w' = w1
    | (Throw e, w1) =>
        w' = record (EvConsoleError
                       ("Erro ao salvar " +:+ hook_key r +:+ " no localStorage:") e) w1
    end.
Proof.
  unfold write. rewrite setValue_unfold.
  destruct (setValue_try _ _ _ _ _) as [[[]|e] w1]; eauto.
Qed.

(** C6, amended. A call of [setValue] makes at most one call of the state
    setter and at most one call of [setItem]; the call of the setter is
    missing exactly when the value is a function whose application throws,
    and then [setItem] is not called either. *)
Theorem write_effect_counts backend r value w :
  let evs := emitted w (snd (write backend r value w)) in
  count is_cell_update evs <= 1 /\
  count is_storage_mutation evs <= 1 /\
  match as_function value with
  | Some f =>
      match f (storedValue r) with
      | Normal _ => count is_cell_update evs = 1
      | Throw _ =>
          count is_cell_update evs = 0 /\ count is_storage_mutation evs = 0
      end
  | None => count is_cell_update evs = 1
  end.
Proof.
  cbv zeta.
  destruct (write_cases backend r value w) as (pre & u & Hpre & Hw).
  assert (count is_cell_update pre = 0 /\ count is_storage_mutation pre = 0)
    as [Hc Hs].
  { destruct (as_function value); destruct Hpre as [-> _]; done. }
  unfold count in *.
  destruct u as [u|].
  - assert (match as_function value with
            | Some f => exists u', f (storedValue r) = Normal u'
            | None => True
            end) as Hu.
    { destruct (as_function value) as [f|]; [|done].
      destruct Hpre as [_ Hpre]. destruct (f (storedValue r)); [eauto|done]. }
    destruct (JSON_stringify u) as [text|e].
    + destruct (set_fault _ _ _ _) as [e|]; rewrite Hw; simpl;
        rewrite emitted_app, !List.filter_app, !length_app, Hc, Hs;
        simpl; (split; [lia|]); (split; [lia|]);
        destruct (as_function value) as [f|]; try done;
        by destruct Hu as [u' ->].
    + rewrite Hw; simpl.
      rewrite emitted_app, !List.filter_app, !length_app, Hc, Hs.
      simpl. (split; [lia|]); (split; [lia|]).
      destruct (as_function value) as [f|]; try done.
      by destruct Hu as [u' ->].
  - destruct Hw as [e Hw]. rewrite Hw; simpl; rewrite emitted_app.
    rewrite !List.filter_app, !length_app. simpl. rewrite Hc, Hs.
    (split; [lia|]); (split; [lia|]).
    destruct (as_function value) as [f|]; [|by destruct Hpre].
    destruct Hpre as [_ Hpre]. by destruct (f (storedValue r)).
Qed.

(** C2, amended. When [setItem] throws during the write of a literal value
    [v], the call still returns normally and returns nothing: the storage is
    as before, [v] has been handed to the state setter, the exception has
    gone to [console.error], and the next render returns [v] (the updates
    queued before it being applicable). *)
Theorem write_persist_failure backend r v text e w :
  as_function v = None ->
  JSON_stringify v = Normal text ->
  set_fault backend (storage w) (hook_key r) (ToString text) = Some e ->
  exists w',
    write backend r v w = (Normal tt, w') /\
    storage w' = storage w /\
    emitted w w' =
      [EvSetStoredValue v; EvStringify v; EvSetItem (hook_key r) (ToString text);
       EvConsoleError ("Erro ao salvar " +:+ hook_key r +:+ " no localStorage:") e] /\
    forall state key fallback,
      reduce_updates (storedValue r) (pending w) = Normal state ->
      exists w'',
        rerender backend r key fallback w' = (Normal (mkRender v key fallback), w'').
Proof.
  intros Hv Ht He.
  destruct (write_cases backend r v w) as (pre & u & Hpre & Hw).
  rewrite Hv in Hpre. destruct Hpre as [-> ->]. rewrite Ht, He in Hw.
  eexists. split; [exact Hw|]. split; [done|]. split; [by rewrite emitted_app|].
  intros state key fallback Hq.
  edestruct (rerender_value backend r key fallback) as (w'' & Hr & _);
    [|eexists; exact Hr].
  simpl. rewrite (reduce_updates_snoc _ _ state) by done.
  by apply apply_update_literal.
Qed.

(** C10, amended. A function [v] given to [setValue] is called on the
    [storedValue] of the render; when the call returns [u], it is [u] that
    goes to the state setter and to [JSON.stringify], so [v] itself is handed
    to the setter only if [v] returns itself. *)
Theorem write_function_value backend r v f u w :
  as_function v = Some f ->
  f (storedValue r) = Normal u ->
  exists w',
    write backend r v w = (Normal tt, w') /\
    pending w' = pending w ++ [u] /\
    List.filter is_cell_update (emitted w w') = [EvSetStoredValue u] /\
    (In (EvSetStoredValue v) (emitted w w') <-> u = v) /\
    (storage w' = storage w \/
     exists text,
       JSON_stringify u = Normal text /\
       storage w' = <[hook_key r := ToString text]> (storage w)).
Proof.
  intros Hf Hu.
  destruct (write_cases backend r v w) as (pre & u' & Hpre & Hw).
  rewrite Hf, Hu in Hpre. destruct Hpre as [-> ->].
  assert (forall sto tl,
    (forall ev, In ev tl -> is_cell_update ev = false) ->
    let w' := mkWorld sto (pending w ++ [u])
                (trace w ++ [EvCall v (storedValue r)] ++
                   EvSetStoredValue u :: EvStringify u :: tl) in
    pending w' = pending w ++ [u] /\
    List.filter is_cell_update (emitted w w') = [EvSetStoredValue u] /\
    (In (EvSetStoredValue v) (emitted w w') <-> u = v)) as Hshape.
  { intros sto tl Htl w'. subst w'. rewrite emitted_app. simpl.
    split; [done|]. split.
    - f_equal. by apply filter_none.
    - split; [|intros ->; auto].
      intros [?|[[= ->]|[?|Hin]]]; try done.
      by apply Htl in Hin. }
  destruct (JSON_stringify u) as [text|e] eqn:Htext.
  - destruct (set_fault _ _ _ _) as [e|]; eexists; (split; [exact Hw|]).
    + edestruct Hshape as (Hp & Hfl & Hin); cycle 1.
      * split; [exact Hp|]. split; [exact Hfl|]. split; [exact Hin|]. by left.
      * intros ev [<-|[<-|[]]]; done.
    + edestruct Hshape as (Hp & Hfl & Hin); cycle 1.
      * split; [exact Hp|]. split; [exact Hfl|]. split; [exact Hin|].
        right. by exists text.
      * intros ev [<-|[]]; done.
  - eexists; (split; [exact Hw|]).
    edestruct Hshape as (Hp & Hfl & Hin); cycle 1.
    + split; [exact Hp|]. split; [exact Hfl|]. split; [exact Hin|]. by left.
    + intros ev [<-|[]]; done.
Qed.

(** *** Hydration *)

(** Every completion of the initializer, with the calls it made. *)
Lemma initializer_cases backend key fallback w :
  let failed e :=
    EvConsoleError ("Erro ao recuperar " +:+ key +:+ " do localStorage:") e in
  let after evs := mkWorld (storage w) (pending w) (trace w ++ evs) in
  initializer backend key fallback w =
    match get_fault backend (storage w) key with
    | Some e => (Normal fallback, after [EvGetItem key; failed e])
    | None =>
        match storage w !! key with
        | None => (Normal fallback, after [EvGetItem key])
        | Some text =>
            if bool_decide (text = "") then (Normal fallback, after [EvGetItem key])
            else
              match JSON_parse text with
              | Normal v => (Normal v, after [EvGetItem key; EvParse text])
              | Throw e =>
                  (Normal fallback, after [EvGetItem key; EvParse text; failed e])
              end
        end
    end.
Proof.
  unfold initializer, try_catch, bind, getItem, parsed_or_initial, console_error,
    parse, lift, ret, record; simpl.
  destruct (get_fault _ _ _) as [e|]; simpl; [by rewrite <- !app_assoc|].
  destruct (storage w !! key) as [text|]; simpl; [|done].
  case_bool_decide; simpl; [done|].
  destruct (JSON_parse text); simpl; by rewrite <- !app_assoc.
Qed.

(** Every completion of the effect, with the calls it made. *)
Lemma keySync_cases backend key fallback w :
  let failed e :=
    EvConsoleError ("Erro ao atualizar " +:+ key +:+ " do localStorage:") e in
  let after v evs :=
    (Normal tt,
     mkWorld (storage w) (pending w ++ [v]) (trace w ++ evs ++ [EvSetStoredValue v])) in
  keySync backend key fallback w =
    match get_fault backend (storage w) key with
    | Some e => after fallback [EvGetItem key; failed e]
    | None =>
        match storage w !! key with
        | None => after fallback [EvGetItem key]
        | Some text =>
            if bool_decide (text = "") then after fallback [EvGetItem key]
            else
              match JSON_parse text with
              | Normal v => after v [EvGetItem key; EvParse text]
              | Throw e => after fallback [EvGetItem key; EvParse text; failed e]
              end
        end
    end.
Proof.
  unfold keySync, try_catch, bind, getItem, parsed_or_initial, console_error,
    setStoredValue, parse, lift, ret, record; simpl.
  destruct (get_fault _ _ _) as [e|]; simpl; [by rewrite <- !app_assoc|].
  destruct (storage w !! key) as [text|]; simpl;
    [|by rewrite <- !app_assoc].
  case_bool_decide; simpl; [by rewrite <- !app_assoc|].
  destruct (JSON_parse text); simpl; by rewrite <- !app_assoc.
Qed.

(** On the same storage, the effect queues the value the initializer
    returns. *)
Lemma keySync_queues_initializer backend key fallback w1 w2 :
  storage w1 = storage w2 ->
  exists v evs,
    fst (initializer backend key fallback w1) = Normal v /\
    keySync backend key fallback w2 =
      (Normal tt, mkWorld (storage w2) (pending w2 ++ [v]) (trace w2 ++ evs)).
Proof.
  intros Hs. rewrite initializer_cases, keySync_cases. cbv zeta. rewrite Hs.
  destruct (get_fault _ _ _) as [e|]; [by eexists _, _|].
  destruct (storage w2 !! key) as [text|]; [|by eexists _, _].
  case_bool_decide; [by eexists _, _|].
  destruct (JSON_parse text); by eexists _, _.
Qed.

(** *** Frames: what renders leave alone *)

Lemma reads_only_same w w' :
  storage w' = storage w -> trace w' = trace w -> reads_only w w'.
Proof. intros Hs Ht. split; [done|]. exists []. by rewrite app_nil_r. Qed.

Lemma reads_only_refl w : reads_only w w.
Proof. by apply reads_only_same. Qed.

Lemma reads_only_trans w1 w2 w3 :
  reads_only w1 w2 -> reads_only w2 w3 -> reads_only w1 w3.
Proof.
  intros [Hs1 (evs1 & Ht1 & Hc1)] [Hs2 (evs2 & Ht2 & Hc2)]. split; [congruence|].
  exists (evs1 ++ evs2). rewrite Ht2, Ht1, app_assoc. split; [done|].
  unfold count in *. rewrite List.filter_app, length_app. lia.
Qed.

Lemma reads_only_emitted w w' :
  reads_only w w' -> count is_storage_mutation (emitted w w') = 0.
Proof.
  intros [_ (evs & Ht & Hc)]. unfold emitted. by rewrite Ht, drop_app_length.
Qed.

Lemma initializer_reads_only backend key fallback w :
  reads_only w (snd (initializer backend key fallback w)).
Proof.
  rewrite initializer_cases. cbv zeta.
  destruct (get_fault _ _ _) as [e|]; [split; [done|]; by eexists|].
  destruct (storage w !! key) as [text|]; [|split; [done|]; by eexists].
  case_bool_decide; [split; [done|]; by eexists|].
  destruct (JSON_parse text); split; try done; by eexists.
Qed.

Lemma keySync_reads_only backend key fallback w :
  reads_only w (snd (keySync backend key fallback w)).
Proof.
  destruct (keySync_total backend key fallback w) as (v & evs & -> & Hc).
  split; [done|]. by exists evs.
Qed.

Lemma rerender_reads_only backend r key fallback w :
  reads_only w (snd (rerender backend r key fallback w)).
Proof.
  unfold rerender, bind at 1, useState_again.
  destruct (reduce_updates _ _) as [state|e]; [|by apply reads_only_same].
  unfold bind, ret.
  destruct (deps_changed r key fallback); [|by apply reads_only_same].
  pose proof (keySync_reads_only backend key fallback
                (mkWorld (storage w) [] (trace w))) as Hk.
  destruct (keySync_total backend key fallback
              (mkWorld (storage w) [] (trace w))) as (v & evs & Heq & _).
  rewrite Heq in Hk |- *. simpl in *.
  eapply reads_only_trans; [|exact Hk]. by apply reads_only_same.
Qed.

Lemma renders_reads_only backend r args w :
  reads_only w (snd (renders backend r args w)).
Proof.
  revert r w. induction args as [|[key fallback] args IH]; intros r w; simpl.
  - apply reads_only_refl.
  - unfold bind.
    pose proof (rerender_reads_only backend r key fallback w) as Hr.
    destruct (rerender backend r key fallback w) as [[r'|e] w1]; simpl in *.
    + eapply reads_only_trans; [exact Hr|apply IH].
    + exact Hr.
Qed.

Lemma mount_cases backend key fallback w :
  exists v w1 w2,
    initializer backend key fallback w = (Normal v, w1) /\
    mount backend key fallback w = (Normal (mkRender v key fallback), w2) /\
    reads_only w w1 /\ reads_only w1 w2.
Proof.
  pose proof (initializer_reads_only backend key fallback w) as Hi.
  assert (exists v w1, initializer backend key fallback w = (Normal v, w1))
    as (v & w1 & Hv).
  { rewrite initializer_cases. cbv zeta.
    repeat case_match; by eexists _, _. }
  rewrite Hv in Hi. simpl in Hi.
  pose proof (keySync_reads_only backend key fallback w1) as Hk.
  destruct (keySync_total backend key fallback w1) as (q & evs & Heq & _).
  exists v, w1. eexists. split; [done|]. split.
  - unfold mount, bind, ret. rewrite Hv, Heq. reflexivity.
  - rewrite Heq in Hk. by split.
Qed.

(** C5. For a key with no entry in the storage, the initializer returns
    exactly the fallback, and neither mounting the hook nor any run of
    renders that follows (no call of [setValue]) calls [setItem]: the
    storage is unchanged and the slot is still empty. *)
Theorem hydrate_empty_slot backend key fallback w :
  storage w !! key = None ->
  exists r w1,
    fst (initializer backend key fallback w) = Normal fallback /\
    mount backend key fallback w = (Normal r, w1) /\
    storedValue r = fallback /\
    forall args,
      let w2 := snd (renders backend r args w1) in
      storage w2 = storage w /\
      storage w2 !! key = None /\
      count is_storage_mutation (emitted w w2) = 0.
Proof.
  intros Hnone.
  destruct (mount_cases backend key fallback w) as (v & w1 & w2 & Hi & Hm & R1 & R2).
  assert (v = fallback) as ->.
  { rewrite initializer_cases in Hi. cbv zeta in Hi. rewrite Hnone in Hi.
    destruct (get_fault _ _ _); by inversion Hi. }
  eexists _, w2. rewrite Hi. split; [done|]. split; [exact Hm|]. split; [done|].
  intros args w3.
  assert (reads_only w w3) as R3.
  { eapply reads_only_trans; [exact R1|].
    eapply reads_only_trans; [exact R2|]. apply renders_reads_only. }
  split; [apply R3|]. split; [by rewrite (proj1 R3)|].
  by apply reads_only_emitted.
Qed.

(** C4, amended. When [getItem] throws, or the slot holds a non-empty text
    that [JSON.parse] rejects, hydration does not raise: the initializer
    returns the fallback and the effect queues it, each logs the exception
    once with [console.error], and the storage is not written. *)
Theorem hydrate_failure backend key fallback w e :
  hydration_fails backend key w e ->
  exists w1 w2,
    initializer backend key fallback w = (Normal fallback, w1) /\
    storage w1 = storage w /\
    count is_storage_mutation (emitted w w1) = 0 /\
    List.filter is_diagnostic (emitted w w1) =
      [EvConsoleError ("Erro ao recuperar " +:+ key +:+ " do localStorage:") e] /\
    keySync backend key fallback w = (Normal tt, w2) /\
    storage w2 = storage w /\
    pending w2 = pending w ++ [fallback] /\
    count is_storage_mutation (emitted w w2) = 0 /\
    List.filter is_diagnostic (emitted w w2) =
      [EvConsoleError ("Erro ao atualizar " +:+ key +:+ " do localStorage:") e].
Proof.
  intros Hfail. rewrite initializer_cases, keySync_cases. cbv zeta.
  destruct Hfail as [Hget|text Hget Hslot Hne Hparse].
  - rewrite Hget. eexists _, _. rewrite !emitted_app. by repeat split.
  - rewrite Hget, Hslot, bool_decide_eq_false_2, Hparse by done.
    eexists _, _. rewrite !emitted_app. by repeat split.
Qed.

(** C8. A slot that holds the empty string is treated as an empty slot: the
    initializer returns the fallback and the effect queues it, [JSON.parse]
    is not called, and, the read itself succeeding, nothing is logged. *)
Theorem hydrate_empty_string backend key fallback w :
  storage w !! key = Some "" ->
  let w1 := snd (initializer backend key fallback w) in
  let w2 := snd (keySync backend key fallback w) in
  fst (initializer backend key fallback w) = Normal fallback /\
  count is_decode (emitted w w1) = 0 /\
  (get_fault backend (storage w) key = None ->
   count is_diagnostic (emitted w w1) = 0) /\
  fst (keySync backend key fallback w) = Normal tt /\
  pending w2 = pending w ++ [fallback] /\
  count is_decode (emitted w w2) = 0 /\
  (get_fault backend (storage w) key = None ->
   count is_diagnostic (emitted w w2) = 0).
Proof.
  intros Hslot. cbv zeta. rewrite initializer_cases, keySync_cases. cbv zeta.
  rewrite Hslot. simpl.
  destruct (get_fault _ _ _) as [e|]; simpl; rewrite !emitted_app;
    by repeat split.
Qed.

(** C7, amended. The render that first sees a new key still returns the
    state the renders before it left, and its effect queues the value a
    fresh initializer returns for the new key; once that update is rendered
    the state is that value, whatever the old key held. *)
Theorem key_change_rehydrates backend r key fallback w state :
  hook_key r <> key ->
  reduce_updates (storedValue r) (pending w) = Normal state ->
  exists r1 w1 h,
    rerender backend r key fallback w = (Normal r1, w1) /\
    storedValue r1 = state /\
    hook_key r1 = key /\
    storage w1 = storage w /\
    fst (initializer backend key fallback (rebind w)) = Normal h /\
    pending w1 = [h] /\
    (as_function h = None ->
     Object_is fallback fallback = true ->
     exists w2,
       rerender backend r1 key fallback w1 = (Normal (mkRender h key fallback), w2) /\
       pending w2 = []).
Proof.
  intros Hkey Hq.
  destruct (keySync_queues_initializer backend key fallback (rebind w)
              (mkWorld (storage w) [] (trace w))) as (h & evs & Hi & Hk); [done|].
  eexists _, _, h. split.
  { unfold rerender, bind at 1, useState_again. rewrite Hq.
    unfold deps_changed. rewrite bool_decide_eq_false_2 by done. simpl.
    unfold bind, ret. rewrite Hk. reflexivity. }
  repeat (split; [done|]).
  intros Hh Hfb. eexists. split.
  - unfold rerender, bind at 1, useState_again. simpl.
    rewrite apply_update_literal by done.
    unfold deps_changed. simpl. rewrite bool_decide_eq_true_2, Hfb by done.
    simpl. unfold bind, ret. reflexivity.
  - done.
Qed.

(** C1. After a write of a serializable value [v] whose [try] block
    completes, the next render returns [v] (the updates queued before it
    being applicable), and a hook instance mounted
    afresh on the same key, the storage being readable, starts from the
    value that [JSON.parse] gives for the stored text, which is equal to [v]
    up to the codec's equality. *)
Theorem write_then_hydrate `{!Equiv V} `{!JSONLaws V} backend r v w fallback :
  serializable v ->
  fst (setValue_try backend (hook_key r) (storedValue r) v w) = Normal tt ->
  exists w1,
    write backend r v w = (Normal tt, w1) /\
    (forall state key' fallback',
       reduce_updates (storedValue r) (pending w) = Normal state ->
       exists w2,
         rerender backend r key' fallback' w1 =
           (Normal (mkRender v key' fallback'), w2)) /\
    (get_fault backend (storage w1) (hook_key r) = None ->
     exists text decoded w3,
       JSON_stringify v = Normal (Some text) /\
       storage w1 !! hook_key r = Some text /\
       JSON_parse text = Normal decoded /\
       mount backend (hook_key r) fallback (rebind w1) =
         (Normal (mkRender decoded (hook_key r) fallback), w3) /\
       decoded ≡ v).
Proof.
  intros (Hv & text & decoded & Htext & Hdec & Heq) Hok.
  rewrite setValue_try_literal, store_cases, Htext in Hok by done.
  destruct (write_cases backend r v w) as (pre & u & Hpre & Hw).
  rewrite Hv in Hpre. destruct Hpre as [-> ->]. rewrite Htext in Hw.
  destruct (set_fault _ _ _ _) as [e|]; [done|]. clear Hok.
  eexists. split; [exact Hw|]. split.
  - intros state key' fallback' Hq.
    edestruct (rerender_value backend r key' fallback') as (w2 & Hr & _);
      [|eexists; exact Hr].
    simpl. rewrite (reduce_updates_snoc _ _ state) by done.
    by apply apply_update_literal.
  - simpl. intros Hget. exists text, decoded.
    match goal with
    | |- context [mount _ _ _ ?w0] =>
        destruct (mount_cases backend (hook_key r) fallback w0)
          as (v' & wi & wm & Hi & Hm & _)
    end.
    rewrite initializer_cases in Hi. cbv zeta in Hi. simpl in Hi.
    rewrite Hget, lookup_insert_eq, bool_decide_eq_false_2, Hdec in Hi
      by (by eapply JSON_stringify_nonempty).
    inversion Hi; subst v'.
    eexists. split; [done|]. split; [by rewrite lookup_insert_eq|].
    split; [done|]. split; [exact Hm|done].
Qed.

(** *** Updaters and the closure of a render *)

Lemma write_function_queues backend r v f u w :
  as_function v = Some f ->
  f (storedValue r) = Normal u ->
  exists w',
    write backend r v w = (Normal tt, w') /\ pending w' = pending w ++ [u].
Proof.
  intros Hf Hu.
  destruct (write_cases backend r v w) as (pre & u' & Hpre & Hw).
  rewrite Hf, Hu in Hpre. destruct Hpre as [-> ->].
  destruct (JSON_stringify u); [destruct (set_fault _ _ _ _)|]; eauto.
Qed.

(** X9. Two updaters called through the [setValue] of one render are both
    applied to the [storedValue] of that render; the next render returns the
    result of the second. *)
Lemma updaters_of_one_render backend r v1 v2 f1 f2 u1 u2 w state key fallback :
  as_function v1 = Some f1 -> f1 (storedValue r) = Normal u1 ->
  as_function v2 = Some f2 -> f2 (storedValue r) = Normal u2 ->
  as_function u1 = None -> as_function u2 = None ->
  reduce_updates (storedValue r) (pending w) = Normal state ->
  exists w',
    (write backend r v1 ;; write backend r v2 ;; rerender backend r key fallback) w =
      (Normal (mkRender u2 key fallback), w').
Proof.
  intros Hf1 Hu1 Hf2 Hu2 Hl1 Hl2 Hq.
  destruct (write_function_queues backend r v1 f1 u1 w) as (w1 & Hw1 & Hp1);
    [done..|].
  destruct (write_function_queues backend r v2 f2 u2 w1) as (w2 & Hw2 & Hp2);
    [done..|].
  destruct (rerender_value backend r key fallback w2 u2) as (w3 & Hr & _).
  { rewrite Hp2, Hp1.
    rewrite (reduce_updates_snoc _ _ u1), apply_update_literal; [done..|].
    by rewrite (reduce_updates_snoc _ _ state), apply_update_literal. }
  exists w3. unfold bind. by rewrite Hw1, Hw2.
Qed.

(** X10. With a render between them (same key, same fallback) the second
    updater is applied to the result of the first. *)
Lemma updaters_of_two_renders backend r v1 v2 f1 f2 u1 u2 w :
  pending w = [] ->
  Object_is (hook_initialValue r) (hook_initialValue r) = true ->
  as_function v1 = Some f1 -> f1 (storedValue r) = Normal u1 ->
  as_function v2 = Some f2 -> f2 u1 = Normal u2 ->
  as_function u1 = None -> as_function u2 = None ->
  exists w',
    (write backend r v1 ;;
     r1 <- rerender backend r (hook_key r) (hook_initialValue r) ;;
     write backend r1 v2 ;;
     rerender backend r1 (hook_key r) (hook_initialValue r)) w =
      (Normal (mkRender u2 (hook_key r) (hook_initialValue r)), w').
Proof.
  intros Hp Hsame Hf1 Hu1 Hf2 Hu2 Hl1 Hl2.
  destruct (write_function_queues backend r v1 f1 u1 w) as (w1 & Hw1 & Hp1);
    [done..|].
  rewrite Hp in Hp1. simpl in Hp1.
  set (r1 := mkRender u1 (hook_key r) (hook_initialValue r)).
  assert (rerender backend r (hook_key r) (hook_initialValue r) w1 =
            (Normal r1, mkWorld (storage w1) [] (trace w1))) as Hr1.
  { unfold rerender, bind at 1, useState_again. rewrite Hp1. simpl.
    rewrite apply_update_literal by done.
    unfold deps_changed. rewrite bool_decide_eq_true_2, Hsame by done.
    reflexivity. }
  destruct (write_function_queues backend r1 v2 f2 u2
              (mkWorld (storage w1) [] (trace w1))) as (w2 & Hw2 & Hp2);
    [done..|].
  destruct (rerender_value backend r1 (hook_key r) (hook_initialValue r) w2 u2)
    as (w3 & Hr & _).
  { rewrite Hp2. simpl. by rewrite apply_update_literal. }
  exists w3. unfold bind. by rewrite Hw1, Hr1, Hw2.
Qed.

End Properties.

(** * The page's runtime *)

Lemma decimal_roundtrip (n : Z) :
  NilZero.int_of_string (Js.decimal n) = Some (Z.to_int n).
Proof.
  unfold Js.decimal. apply NilZero.isi.
  - destruct n; simpl; try discriminate.
    intros [= Hp]. by apply Unsigned.to_uint_nonnil in Hp.
  - destruct n; simpl; try discriminate.
    intros [= Hp]. by apply Unsigned.to_uint_nonnil in Hp.
Qed.

Lemma decimal_not (n : Z) (s : string) :
  NilZero.int_of_string s = None -> Js.decimal n <> s.
Proof. intros Hs <-. by rewrite decimal_roundtrip in Hs. Qed.

(** Every value of the page that has a JSON text parses back to itself. *)
Lemma Js_parse_stringify (v : Js.Val) (s : string) :
  JSON_stringify v = Normal (Some s) -> JSON_parse s = Normal v.
Proof.
  destruct v as [| |[]|n|n|f]; simpl; intros [= <-]; try reflexivity.
  unfold Js.parse_text.
  rewrite !bool_decide_eq_false_2 by (by apply decimal_not).
  rewrite decimal_roundtrip, DecimalZ.of_to.
  by rewrite bool_decide_eq_true_2.
Qed.

#[global] Instance Js_laws : JSONLaws Js.Val.
Proof.
  split. intros v s Hs ->.
  destruct v as [| |[]|n|n|f]; simpl in Hs; try discriminate.
  injection Hs as Hs. exact (decimal_not n "" eq_refl Hs).
Qed.

(** On the page, a value is serializable as soon as it has a JSON text. *)
Lemma Js_serializable (v : Js.Val) (s : string) :
  JSON_stringify v = Normal (Some s) -> serializable v.
Proof.
  intros Hs. split; [by destruct v|].
  exists s, v. by rewrite (Js_parse_stringify v s).
Qed.

(** * The properties on the page *)

Lemma write_then_hydrate_witness :
  exists w1 w3,
    write reliable Js.counter (Js.Num 5) Js.empty = (Normal tt, w1) /\
    storage w1 !! "count" = Some "5" /\
    mount reliable "count" Js.Undefined (rebind w1) =
      (Normal (mkRender (Js.Num 5) "count" Js.Undefined), w3).
Proof.
  destruct (write_then_hydrate reliable Js.counter (Js.Num 5) Js.empty
              Js.Undefined) as (w1 & Hw & _ & Hm).
  - apply (Js_serializable _ "5"). reflexivity.
  - vm_compute. reflexivity.
  - destruct Hm as (text & decoded & w3 & Ht & Hs & Hp & Hm & Heq);
      [reflexivity|].
    injection Ht as <-. injection Hp as <-.
    exists w1, w3. done.
Defined.

Lemma write_persist_failure_witness :
  exists w' w'',
    write Js.full Js.counter (Js.Num 1) Js.empty = (Normal tt, w') /\
    storage w' = ∅ /\
    rerender Js.full Js.counter "count" (Js.Num 0) w' =
      (Normal (mkRender (Js.Num 1) "count" (Js.Num 0)), w'').
Proof.
  destruct (write_persist_failure Js.full Js.counter (Js.Num 1) (Some "1")
              QuotaExceededError Js.empty)
    as (w' & Hw & Hs & _ & Hr); [reflexivity..|].
  destruct (Hr (Js.Num 0) "count" (Js.Num 0)) as (w'' & Hr'); [reflexivity|].
  exists w', w''. done.
Defined.

(** C2, as stated, fails: on a full storage the write of 1 completes exactly
    as on a storage with room, by returning [undefined]; the caller is given
    no failure result. *)
Lemma write_failure_returns_nothing :
  set_fault Js.full (storage Js.empty) "count" "1" = Some QuotaExceededError /\
  fst (write Js.full Js.counter (Js.Num 1) Js.empty) =
    fst (write reliable Js.counter (Js.Num 1) Js.empty) /\
  ~ returns_failure (fst (write Js.full Js.counter (Js.Num 1) Js.empty)).
Proof. split; [done|]. split; [done|]. intros Hf. by apply Hf. Qed.

(** C3 fails on the code. Two calls of [setValue] with [x => x + 1] made
    through the same render of a counter at 0 leave the counter, and the
    storage, at 1: the second updater is applied to the [storedValue] the
    render closed over, not to the result of the first. Separated by a
    render, the same two calls give 2. *)
Theorem updaters_of_one_render_do_not_compose :
  fst (Js.two_increments reliable Js.empty) =
    Normal (mkRender (Js.Num 1) "count" (Js.Num 0)) /\
  storage (snd (Js.two_increments reliable Js.empty)) !! "count" = Some "1" /\
  fst (Js.two_increments_rendered reliable Js.empty) =
    Normal (mkRender (Js.Num 2) "count" (Js.Num 0)).
Proof. by vm_compute. Qed.

Lemma hydrate_failure_witness :
  exists w1 w2,
    initializer reliable "user" Js.Null Js.corrupted = (Normal Js.Null, w1) /\
    storage w1 !! "user" = Some "not-json" /\
    initializer Js.denied "user" Js.Null Js.corrupted = (Normal Js.Null, w2) /\
    storage w2 !! "user" = Some "not-json".
Proof.
  destruct (hydrate_failure reliable "user" Js.Null Js.corrupted SyntaxError)
    as (w1 & _ & Hi1 & Hs1 & _).
  { apply decode_fails with "not-json"; by vm_compute. }
  destruct (hydrate_failure Js.denied "user" Js.Null Js.corrupted SecurityError)
    as (w2 & _ & Hi2 & Hs2 & _).
  { apply get_fails. reflexivity. }
  exists w1, w2. by rewrite Hs1, Hs2.
Defined.

(** C4, as stated, fails: the empty string is a text that [JSON.parse]
    rejects, yet hydrating a slot that holds it logs nothing. *)
Lemma empty_string_slot_logs_nothing :
  storage Js.blank !! "user" = Some "" /\
  JSON_parse "" = @Throw Js.Val SyntaxError /\
  fst (initializer reliable "user" Js.Null Js.blank) = Normal Js.Null /\
  count is_diagnostic
    (emitted Js.blank (snd (initializer reliable "user" Js.Null Js.blank))) = 0.
Proof. by vm_compute. Qed.

Lemma hydrate_empty_slot_witness :
  exists r w1,
    mount reliable "user" Js.Null Js.empty = (Normal r, w1) /\
    storedValue r = Js.Null /\
    storage (snd (renders reliable r [("user", Js.Null)] w1)) !! "user" = None.
Proof.
  destruct (hydrate_empty_slot reliable "user" Js.Null Js.empty)
    as (r & w1 & _ & Hm & Hv & Hr); [reflexivity|].
  exists r, w1. split; [done|]. split; [done|].
  apply (Hr [("user", Js.Null)]).
Defined.

(** C6, as stated, fails: a call of [setValue] with an updater that throws
    makes no call of the state setter. *)
Lemma throwing_updater_updates_no_cell :
  count is_cell_update
    (emitted Js.empty (snd (write reliable Js.counter (Js.Fun Js.Boom) Js.empty))) = 0 /\
  pending (snd (write reliable Js.counter (Js.Fun Js.Boom) Js.empty)) = [].
Proof. by vm_compute. Qed.

Lemma key_change_rehydrates_witness :
  exists r1 w1 w2,
    rerender reliable (mkRender (Js.Num 1) "a" (Js.Num 0)) "b" (Js.Num 0)
      Js.two_slots = (Normal r1, w1) /\
    storedValue r1 = Js.Num 1 /\
    rerender reliable r1 "b" (Js.Num 0) w1 =
      (Normal (mkRender (Js.Num 2) "b" (Js.Num 0)), w2).
Proof.
  destruct (key_change_rehydrates reliable (mkRender (Js.Num 1) "a" (Js.Num 0))
              "b" (Js.Num 0) Js.two_slots (Js.Num 1))
    as (r1 & w1 & h & Hr & Hv & _ & _ & Hh & _ & Hnext); [done|reflexivity|].
  injection Hh as <-.
  destruct Hnext as (w2 & Hr2 & _); [reflexivity..|].
  exists r1, w1, w2. done.
Defined.

(** C7, as stated, fails: the render in which the key goes from "a" to "b"
    returns 1, the value kept under "a", while "b" holds 2. *)
Lemma key_change_render_returns_old_value :
  fst (Js.switch_key reliable Js.two_slots) =
    Normal (mkRender (Js.Num 1) "b" (Js.Num 0)) /\
  storage (snd (Js.switch_key reliable Js.two_slots)) !! "b" = Some "2" /\
  JSON_parse "2" = Normal (Js.Num 2).
Proof. by vm_compute. Qed.

Lemma hydrate_empty_string_witness :
  fst (initializer reliable "user" Js.Null Js.blank) = Normal Js.Null /\
  count is_decode
    (emitted Js.blank (snd (initializer reliable "user" Js.Null Js.blank))) = 0.
Proof.
  destruct (hydrate_empty_string reliable "user" Js.Null Js.blank)
    as (Hv & Hd & _); [reflexivity|].
  by split.
Defined.

Lemma write_function_value_witness :
  exists w',
    write reliable Js.counter (Js.Fun Js.Succ) Js.empty = (Normal tt, w') /\
    pending w' = [Js.Num 1].
Proof.
  destruct (write_function_value reliable Js.counter (Js.Fun Js.Succ)
              (Js.call_fn Js.Succ) (Js.Num 1) Js.empty)
    as (w' & Hw & Hp & _); [reflexivity..|].
  exists w'. done.
Defined.

(** C10, as stated, fails: a function that returns itself is handed to the
    state setter by a write of it, and is the state of the next render. *)
Lemma self_returning_function_is_stored :
  pending (snd (write reliable Js.counter (Js.Fun Js.Self) Js.empty)) =
    [Js.Fun Js.Self] /\
  fst (bind (write reliable Js.counter (Js.Fun Js.Self))
         (fun _ => rerender reliable Js.counter "count" (Js.Num 0)) Js.empty) =
    Normal (mkRender (Js.Fun Js.Self) "count" (Js.Num 0)).
Proof. by vm_compute. Qed.

(** * Further properties of the hook *)

Section HookFrames.

Context {V : Type} `{Runtime V}.
Implicit Types (backend : Backend) (w : World (V := V)) (r : Render (V := V)).
Implicit Types (v value fallback : V) (key : string).

(** What a call of [setValue] can do to the storage: nothing, or overwrite
    the slot of its key. *)
Lemma write_storage backend r value w :
  storage (snd (write backend r value w)) = storage w \/
  exists text,
    fst (setValue_try backend (hook_key r) (storedValue r) value w) = Normal tt /\
    storage (snd (write backend r value w)) = <[hook_key r := text]> (storage w).
Proof.
  unfold write. rewrite setValue_unfold.
  destruct (as_function value) as [f|] eqn:Hf.
  - rewrite (setValue_try_function _ _ _ _ f) by done.
    destruct (f (storedValue r)) as [u|e]; [|by left].
    rewrite store_cases. simpl.
    destruct (JSON_stringify u) as [text|e]; [|by left].
    destruct (set_fault _ _ _ _); [by left|]. right. by eexists.
  - rewrite setValue_try_literal by done. rewrite store_cases.
    destruct (JSON_stringify value) as [text|e]; [|by left].
    destruct (set_fault _ _ _ _); [by left|]. right. by eexists.
Qed.

(** X1. A call of [setValue] never touches the slot of another key, and a
    call whose [try] block throws leaves the whole storage as it was. *)
Theorem write_frame backend r value w :
  (forall key', key' <> hook_key r ->
     storage (snd (write backend r value w)) !! key' = storage w !! key') /\
  (fst (setValue_try backend (hook_key r) (storedValue r) value w) <> Normal tt ->
   storage (snd (write backend r value w)) = storage w).
Proof.
  destruct (write_storage backend r value w) as [Hs|(text & Hok & Hs)];
    rewrite Hs; split; try done.
  intros key' Hne. by rewrite lookup_insert_ne.
Qed.

(** X2. The slot shows the last successful write only: after any call of
    [setValue] through a render of the key, whatever its outcome, a literal
    value written next through a render of the same key, with [setItem]
    succeeding, leaves the storage as if it alone had been written. *)
Theorem last_write_wins backend r1 r2 v1 v2 text w :
  hook_key r2 = hook_key r1 ->
  as_function v2 = None ->
  JSON_stringify v2 = Normal text ->
  let w1 := snd (write backend r1 v1 w) in
  set_fault backend (storage w1) (hook_key r2) (ToString text) = None ->
  storage (snd (write backend r2 v2 w1)) =
    <[hook_key r2 := ToString text]> (storage w).
Proof.
  intros Hk Hv Ht w1 Hset.
  destruct (write_cases backend r2 v2 w1) as (pre & u & Hpre & Hw).
  rewrite Hv in Hpre. destruct Hpre as [-> ->]. rewrite Ht, Hset in Hw.
  rewrite Hw. simpl. subst w1.
  destruct (write_storage backend r1 v1 w) as [->|(t1 & _ & ->)]; [done|].
  rewrite Hk. apply insert_insert_eq.
Qed.


(** X4. Renders with an unchanged key and an unchanged fallback never look
    at the storage: with nothing queued they return the same state again,
    make no call, and do so whatever the slot holds, so that a change made
    to the slot by someone else is not picked up. *)
Theorem stable_renders_ignore_storage backend r w n :
  pending w = [] ->
  Object_is (hook_initialValue r) (hook_initialValue r) = true ->
  renders backend r (replicate n (hook_key r, hook_initialValue r)) w =
    (Normal r, mkWorld (storage w) [] (trace w)).
Proof.
  intros Hp Hsame. revert w Hp. induction n as [|n IH]; intros w Hp; simpl.
  - unfold ret. destruct w; simpl in *. by subst.
  - unfold bind at 1, rerender, bind at 1, useState_again. rewrite Hp. simpl.
    unfold deps_changed. rewrite bool_decide_eq_true_2, Hsame by done. simpl.
    unfold bind, ret. destruct r; simpl. by rewrite IH.
Qed.

(** X5. A render given a fallback that is not the very object the render
    before it was given always runs the effect: it reads the slot again and
    queues the hydrated value, so that another render has to follow. *)
Theorem fresh_fallback_requeues backend r key fallback w state :
  Object_is (hook_initialValue r) fallback = false ->
  reduce_updates (storedValue r) (pending w) = Normal state ->
  exists h w',
    rerender backend r key fallback w = (Normal (mkRender state key fallback), w') /\
    fst (initializer backend key fallback (rebind w)) = Normal h /\
    pending w' = [h] /\
    count is_cell_update (emitted w w') = 1.
Proof.
  intros Hfresh Hq.
  unfold rerender, bind at 1, useState_again. rewrite Hq.
  unfold deps_changed. rewrite Hfresh, andb_false_r. simpl.
  rewrite initializer_cases. unfold bind, ret. rewrite keySync_cases. cbv zeta.
  simpl.
  destruct (get_fault _ _ _) as [e|]; simpl.
  { eexists _, _. rewrite emitted_app. by repeat split. }
  destruct (storage w !! key) as [text|]; simpl.
  - case_bool_decide; simpl.
    + eexists _, _. rewrite emitted_app. by repeat split.
    + destruct (JSON_parse text); simpl;
        eexists _, _; rewrite emitted_app; by repeat split.
  - eexists _, _. rewrite emitted_app. by repeat split.
Qed.

(** X6. Mounting settles in one more render: with a fallback that keeps its
    identity and a hydrated value that is not a function, the render after
    the mount returns the value the initializer returned, with nothing left
    queued and the storage as it was. *)
Theorem mount_settles backend key fallback w :
  pending w = [] ->
  Object_is fallback fallback = true ->
  exists h r w1 w2,
    fst (initializer backend key fallback w) = Normal h /\
    mount backend key fallback w = (Normal r, w1) /\
    storedValue r = h /\
    (as_function h = None ->
     rerender backend r key fallback w1 = (Normal r, w2) /\
     pending w2 = [] /\
     storage w2 = storage w).
Proof.
  intros Hp Hsame.
  destruct (mount_cases backend key fallback w)
    as (h & wi & w1 & Hi & Hm & [Hsi _] & _).
  destruct (keySync_queues_initializer backend key fallback w wi)
    as (h' & evs & Hh' & Hk); [done|].
  rewrite Hi in Hh'. injection Hh' as <-.
  assert (w1 = mkWorld (storage wi) (pending wi ++ [h]) (trace wi ++ evs)) as ->.
  { unfold mount, bind, ret in Hm. rewrite Hi, Hk in Hm. by injection Hm. }
  assert (pending wi = []) as Hpi.
  { rewrite <- Hp. rewrite initializer_cases in Hi. cbv zeta in Hi.
    repeat case_match; by injection Hi as _ <-. }
  exists h, (mkRender h key fallback). eexists _, _.
  rewrite Hi. split; [done|]. split; [exact Hm|]. split; [done|].
  intros Hh.
  unfold rerender, bind at 1, useState_again. simpl.
  rewrite Hpi. simpl. rewrite apply_update_literal by done.
  unfold deps_changed. simpl. rewrite bool_decide_eq_true_2, Hsame by done.
  simpl. unfold bind, ret. by repeat split.
Qed.

Lemma bind_normal {A B} (m : M (V := V) A) (k : A -> M (V := V) B) w a w' :
  m w = (Normal a, w') -> bind m k w = k a w'.
Proof. unfold bind. by intros ->. Qed.

Lemma rerender_changed backend r key fallback w state :
  reduce_updates (storedValue r) (pending w) = Normal state ->
  deps_changed r key fallback = true ->
  rerender backend r key fallback w =
    (Normal (mkRender state key fallback),
     snd (keySync backend key fallback (mkWorld (storage w) [] (trace w)))).
Proof.
  intros Hq Hd. unfold rerender, bind at 1, useState_again. rewrite Hq, Hd.
  destruct (keySync_total backend key fallback
              (mkWorld (storage w) [] (trace w))) as (q & evs & Hk & _).
  unfold bind, ret. by rewrite Hk.
Qed.

Lemma rerender_unchanged backend r key fallback w state :
  reduce_updates (storedValue r) (pending w) = Normal state ->
  deps_changed r key fallback = false ->
  rerender backend r key fallback w =
    (Normal (mkRender state key fallback), mkWorld (storage w) [] (trace w)).
Proof.
  intros Hq Hd. unfold rerender, bind at 1, useState_again. by rewrite Hq, Hd.
Qed.

(** X7. A failed write is undone by the next re-hydration: after a write of
    a literal value whose [setItem] throws, a render whose key or fallback
    has changed re-reads the untouched slot, and the render after it returns
    what a fresh initializer returns for that slot, not the value
    written. *)
Theorem failed_write_lost_on_rehydration backend r v text e key fallback w :
  pending w = [] ->
  as_function v = None ->
  JSON_stringify v = Normal text ->
  set_fault backend (storage w) (hook_key r) (ToString text) = Some e ->
  deps_changed r key fallback = true ->
  Object_is fallback fallback = true ->
  exists h w',
    fst (initializer backend key fallback (rebind w)) = Normal h /\
    (as_function h = None ->
     (write backend r v ;;
      r1 <- rerender backend r key fallback ;;
      rerender backend r1 key fallback) w =
       (Normal (mkRender h key fallback), w')).
Proof.
  intros Hp Hv Ht He Hdeps Hsame.
  destruct (write_cases backend r v w) as (pre & u & Hpre & Hw).
  rewrite Hv in Hpre. destruct Hpre as [-> ->]. rewrite Ht, He in Hw.
  match type of Hw with _ = (_, ?w0) => remember w0 as w1 eqn:Hw1 end.
  assert (storage w1 = storage w /\ pending w1 = [v]) as [Hs1 Hp1].
  { subst w1. simpl. by rewrite Hp. }
  destruct (keySync_queues_initializer backend key fallback (rebind w)
              (mkWorld (storage w1) [] (trace w1))) as (h & evs & Hi & Hk); [done|].
  exists h. eexists. split; [exact Hi|]. intros Hh.
  rewrite (bind_normal _ _ _ _ _ Hw).
  erewrite bind_normal; cycle 1.
  { apply rerender_changed; [|done]. rewrite Hp1. simpl.
    by rewrite apply_update_literal. }
  rewrite Hk. simpl.
  apply rerender_unchanged.
  - simpl. by rewrite apply_update_literal.
  - unfold deps_changed. simpl. by rewrite bool_decide_eq_true_2, Hsame.
Qed.

(** X8. A write made through the render that first sees a new key stores
    under the new key a value computed from the old one: the updater is
    applied to the state the renders before left, and its result, encoded,
    replaces the slot of the new key. *)
Theorem write_after_key_change backend r key fallback v f state u text w :
  hook_key r <> key ->
  reduce_updates (storedValue r) (pending w) = Normal state ->
  as_function v = Some f ->
  f state = Normal u ->
  JSON_stringify u = Normal text ->
  set_fault backend (storage w) key (ToString text) = None ->
  exists w',
    (r1 <- rerender backend r key fallback ;; write backend r1 v) w =
      (Normal tt, w') /\
    storage w' = <[key := ToString text]> (storage w).
Proof.
  intros Hkey Hq Hf Hu Ht Hset.
  destruct (rerender_value backend r key fallback w state) as (w1 & Hr & Hs1);
    [done|].
  destruct (write_cases backend (mkRender state key fallback) v w1)
    as (pre & u' & Hpre & Hw).
  simpl in Hpre, Hw. rewrite Hf, Hu in Hpre. destruct Hpre as [-> ->].
  rewrite Ht, Hs1, Hset in Hw.
  eexists. split.
  - unfold bind. rewrite Hr. exact Hw.
  - done.
Qed.

End HookFrames.

Lemma write_frame_witness :
  storage (snd (write reliable Js.counter (Js.Num 3) Js.two_slots)) !! "a" =
    Some "1" /\
  storage (snd (write Js.full Js.counter (Js.Num 3) Js.two_slots)) =
    storage Js.two_slots.
Proof.
  destruct (write_frame reliable Js.counter (Js.Num 3) Js.two_slots) as [Hk _].
  destruct (write_frame Js.full Js.counter (Js.Num 3) Js.two_slots) as [_ Hf].
  split.
  - rewrite (Hk "a"); [reflexivity | by vm_compute].
  - apply Hf. by vm_compute.
Defined.

Lemma last_write_wins_witness :
  storage (snd (write reliable Js.counter (Js.Num 2)
                  (snd (write reliable Js.counter (Js.Fun Js.Succ) Js.empty)))) =
    <["count" := "2"]> ∅.
Proof.
  apply (last_write_wins reliable Js.counter Js.counter (Js.Fun Js.Succ)
           (Js.Num 2) (Some "2") Js.empty); reflexivity.
Defined.


Lemma stable_renders_ignore_storage_witness :
  fst (renders reliable Js.counter (replicate 2 ("count", Js.Num 0))
         (Js.world0 (<["count" := "41"]> ∅))) = Normal Js.counter.
Proof.
  rewrite (stable_renders_ignore_storage reliable Js.counter
             (Js.world0 (<["count" := "41"]> ∅)) 2); reflexivity.
Defined.

Lemma fresh_fallback_requeues_witness :
  exists w',
    rerender reliable Js.counter "count" (Js.Num 7) Js.empty =
      (Normal (mkRender (Js.Num 0) "count" (Js.Num 7)), w') /\
    pending w' = [Js.Num 7].
Proof.
  destruct (fresh_fallback_requeues reliable Js.counter "count" (Js.Num 7)
              Js.empty (Js.Num 0)) as (h & w' & Hr & Hh & Hp & _);
    [reflexivity..|].
  injection Hh as <-. by exists w'.
Defined.

Lemma mount_settles_witness :
  exists r w1 w2,
    mount reliable "b" (Js.Num 0) Js.two_slots = (Normal r, w1) /\
    storedValue r = Js.Num 2 /\
    rerender reliable r "b" (Js.Num 0) w1 = (Normal r, w2) /\
    pending w2 = [].
Proof.
  destruct (mount_settles reliable "b" (Js.Num 0) Js.two_slots)
    as (h & r & w1 & w2 & Hh & Hm & Hv & Hs); [reflexivity..|].
  injection Hh as <-.
  destruct Hs as (Hr & Hp & _); [reflexivity|].
  exists r, w1, w2. done.
Defined.

Lemma failed_write_lost_on_rehydration_witness :
  exists w',
    (write Js.full Js.counter (Js.Num 9) ;;
     r1 <- rerender Js.full Js.counter "count" (Js.Num 7) ;;
     rerender Js.full r1 "count" (Js.Num 7))
      (Js.world0 (<["count" := "0"]> ∅)) =
      (Normal (mkRender (Js.Num 0) "count" (Js.Num 7)), w').
Proof.
  destruct (failed_write_lost_on_rehydration Js.full Js.counter (Js.Num 9)
              (Some "9") QuotaExceededError "count" (Js.Num 7)
              (Js.world0 (<["count" := "0"]> ∅)))
    as (h & w' & Hh & Hrun); [reflexivity..|].
  injection Hh as <-. exists w'. by apply Hrun.
Defined.

Lemma write_after_key_change_witness :
  exists w',
    (r1 <- rerender reliable (mkRender (Js.Num 1) "a" (Js.Num 0)) "b" (Js.Num 0) ;;
     write reliable r1 (Js.Fun Js.Succ)) Js.two_slots = (Normal tt, w') /\
    storage w' !! "b" = Some "2" /\
    storage w' !! "a" = Some "1".
Proof.
  destruct (write_after_key_change reliable (mkRender (Js.Num 1) "a" (Js.Num 0))
              "b" (Js.Num 0) (Js.Fun Js.Succ) (Js.call_fn Js.Succ) (Js.Num 1)
              (Js.Num 2) (Some "2") Js.two_slots)
    as (w' & Hrun & Hs); [done|reflexivity..|].
  exists w'. rewrite Hs. done.
Defined.

Lemma updaters_of_one_render_witness :
  exists w',
    (write reliable Js.counter (Js.Fun Js.Succ) ;;
     write reliable Js.counter (Js.Fun Js.Succ) ;;
     rerender reliable Js.counter "count" (Js.Num 0)) Js.empty =
      (Normal (mkRender (Js.Num 1) "count" (Js.Num 0)), w').
Proof.
  apply (updaters_of_one_render reliable Js.counter (Js.Fun Js.Succ)
           (Js.Fun Js.Succ) (Js.call_fn Js.Succ) (Js.call_fn Js.Succ)
           (Js.Num 1) (Js.Num 1) Js.empty (Js.Num 0) "count" (Js.Num 0));
    reflexivity.
Defined.

Lemma updaters_of_two_renders_witness :
  exists w',
    (write reliable Js.counter (Js.Fun Js.Succ) ;;
     r1 <- rerender reliable Js.counter "count" (Js.Num 0) ;;
     write reliable r1 (Js.Fun Js.Succ) ;;
     rerender reliable r1 "count" (Js.Num 0)) Js.empty =
      (Normal (mkRender (Js.Num 2) "count" (Js.Num 0)), w').
Proof.
  apply (updaters_of_two_renders reliable Js.counter (Js.Fun Js.Succ)
           (Js.Fun Js.Succ) (Js.call_fn Js.Succ) (Js.call_fn Js.Succ)
           (Js.Num 1) (Js.Num 2) Js.empty); reflexivity.
Defined.

(** * The pages *)

(** ** The matcher against the language of a pattern *)

Lemma lang_nullable r : RegExp.nullable r = true <-> RegExp.lang r [].
Proof.
  induction r as [| |p|r1 IH1 r2 IH2|r1 IH1 r2 IH2|r IH]; simpl.
  - split; [done|]. inversion 1.
  - split; [constructor|done].
  - split; [done|]. inversion 1.
  - rewrite andb_true_iff, IH1, IH2. split.
    + intros [H1 H2]. apply (RegExp.lang_cat _ _ [] []); done.
    + inversion 1 as [| |? ? s1 s2 H1 H2 Hr Hs| | | |].
      apply app_eq_nil in Hs as [-> ->]. done.
  - rewrite orb_true_iff, IH1, IH2. split.
    + intros [?|?]; [by apply RegExp.lang_alt_l|by apply RegExp.lang_alt_r].
    + inversion 1; auto.
  - split; [constructor|done].
Qed.

Lemma lang_star_cons_inv r c s :
  RegExp.lang (RegExp.Star r) (c :: s) ->
  exists s1 s2,
    s = s1 ++ s2 /\ RegExp.lang r (c :: s1) /\ RegExp.lang (RegExp.Star r) s2.
Proof.
  intros Hl. remember (RegExp.Star r) as r' eqn:Hr.
  remember (c :: s) as cs eqn:Hcs. revert s Hcs.
  induction Hl as [| | | | | |r0 s1 s2 H1 _ H2 IH2]; intros tl Hcs;
    try discriminate.
  injection Hr as ->. destruct s1 as [|c1 s1]; simpl in Hcs.
  - by apply IH2.
  - injection Hcs as -> <-. by exists s1, s2.
Qed.

Lemma lang_deriv c r s :
  RegExp.lang (RegExp.deriv c r) s <-> RegExp.lang r (c :: s).
Proof.
  revert s. induction r as [| |p|r1 IH1 r2 IH2|r1 IH1 r2 IH2|r IH];
    intros s; simpl.
  - split; inversion 1.
  - split; inversion 1.
  - destruct (p c) eqn:Hp; split; inversion 1; subst.
    + by constructor.
    + constructor.
    + congruence.
  - split.
    + inversion 1 as [| | |? ? ? Hl|? ? ? Hr| |]; subst.
      * inversion Hl as [| |? ? s1 s2 H1 H2| | | |]; subst.
        apply IH1 in H1. by apply (RegExp.lang_cat _ _ (c :: s1) s2).
      * destruct (RegExp.nullable r1) eqn:Hn; [|inversion Hr].
        apply lang_nullable in Hn. apply IH2 in Hr.
        by apply (RegExp.lang_cat _ _ [] (c :: s)).
    + inversion 1 as [| |? ? s1 s2 H1 H2 Hr Hs| | | |]; subst.
      destruct s1 as [|c1 s1]; simpl in Hs.
      * subst s2. apply RegExp.lang_alt_r.
        apply lang_nullable in H1. rewrite H1. by apply IH2.
      * injection Hs as -> <-. apply RegExp.lang_alt_l.
        constructor; [by apply IH1|done].
  - split.
    + inversion 1; subst;
        [apply RegExp.lang_alt_l; by apply IH1
        |apply RegExp.lang_alt_r; by apply IH2].
    + inversion 1; subst;
        [apply RegExp.lang_alt_l; by apply IH1
        |apply RegExp.lang_alt_r; by apply IH2].
  - split.
    + inversion 1 as [| |? ? s1 s2 H1 H2| | | |]; subst.
      apply IH in H1. by apply (RegExp.lang_star_cons _ (c :: s1) s2).
    + intros Hl. apply lang_star_cons_inv in Hl as (s1 & s2 & -> & H1 & H2).
      constructor; [by apply IH|done].
Qed.

Lemma accepts_lang r s : RegExp.accepts r s = true <-> RegExp.lang r s.
Proof.
  revert r. induction s as [|c s IH]; intros r; simpl.
  - apply lang_nullable.
  - rewrite IH. apply lang_deriv.
Qed.

Lemma lang_any_star s : RegExp.lang (RegExp.Star RegExp.any) s.
Proof.
  induction s as [|c s IH]; [constructor|].
  apply (RegExp.lang_star_cons _ [c] s); [by constructor|done].
Qed.

Lemma lang_class_star p s :
  RegExp.lang (RegExp.Star (RegExp.Class p)) s <-> Forall (fun c => p c = true) s.
Proof.
  split.
  - intros Hl. remember (RegExp.Star (RegExp.Class p)) as r eqn:Hr.
    induction Hl as [| | | | | |r0 s1 s2 H1 _ H2 IH2]; try discriminate.
    + constructor.
    + injection Hr as ->. inversion H1; subst. constructor; [done|].
      by apply IH2.
  - induction 1 as [|c s Hc _ IH]; [constructor|].
    apply (RegExp.lang_star_cons _ [c] s); [by constructor|done].
Qed.

Lemma lang_class_plus p s :
  RegExp.lang (RegExp.plus (RegExp.Class p)) s <->
  s <> [] /\ Forall (fun c => p c = true) s.
Proof.
  unfold RegExp.plus. split.
  - inversion 1 as [| |? ? s1 s2 H1 H2| | | |]; subst.
    inversion H1; subst. split; [done|]. constructor; [done|].
    by apply lang_class_star.
  - intros [Hne Hall]. destruct Hall as [|c s Hc Hall]; [done|].
    apply (RegExp.lang_cat _ _ [c] s); [by constructor|by apply lang_class_star].
Qed.

Lemma lang_char c s : RegExp.lang (RegExp.char c) s <-> s = [c].
Proof.
  unfold RegExp.char. split.
  - inversion 1 as [|? c' Hc| | | | |]; subst. by apply N.eqb_eq in Hc as ->.
  - intros ->. constructor. apply N.eqb_refl.
Qed.

(** [test] looks for a matching substring. *)
Lemma test_lang r s :
  RegExp.test r s = true <->
  exists pre m post, s = pre ++ m ++ post /\ RegExp.lang r m.
Proof.
  unfold RegExp.test. rewrite accepts_lang. split.
  - inversion 1 as [| |? ? pre rest _ Hrest| | | |]; subst.
    inversion Hrest as [| |? ? m post Hm _| | | |]; subst.
    by exists pre, m, post.
  - intros (pre & m & post & -> & Hm).
    constructor; [apply lang_any_star|].
    constructor; [done|apply lang_any_star].
Qed.

Lemma lang_cat_inv r1 r2 s :
  RegExp.lang (RegExp.Cat r1 r2) s <->
  exists s1 s2, s = s1 ++ s2 /\ RegExp.lang r1 s1 /\ RegExp.lang r2 s2.
Proof.
  split.
  - inversion 1; subst. eauto.
  - intros (s1 & s2 & -> & H1 & H2). by constructor.
Qed.

Lemma lang_non_space_plus s :
  RegExp.lang (RegExp.plus RegExp.non_space) s <->
  s <> [] /\ Forall (fun c => JsString.is_white_space c = false) s.
Proof.
  unfold RegExp.non_space. rewrite lang_class_plus.
  split; intros [Hne Hall]; (split; [done|]);
    eapply Forall_impl; try exact Hall; simpl; intros c;
    by rewrite negb_true_iff.
Qed.

(** ** The email test *)

(** The shape of a text with an email in it. *)
Lemma email_test_sound (s : JsString.t) :
  RegExp.test email_pattern s = true ->
  exists pre a domain b post,
    s = pre ++ [a; 64%N] ++ domain ++ [46%N; b] ++ post /\
    JsString.is_white_space a = false /\
    domain <> [] /\
    Forall (fun c => JsString.is_white_space c = false) domain /\
    JsString.is_white_space b = false.
Proof.
  rewrite test_lang. unfold email_pattern.
  intros (pre & m & post & -> & Hm).
  apply lang_cat_inv in Hm as (u & m1 & -> & Hu & Hm).
  apply lang_cat_inv in Hm as (at_ & m2 & -> & Hat & Hm).
  apply lang_cat_inv in Hm as (v & m3 & -> & Hv & Hm).
  apply lang_cat_inv in Hm as (dot & t & -> & Hdot & Ht).
  apply lang_char in Hat as ->. apply lang_char in Hdot as ->.
  apply lang_non_space_plus in Hu as [Hune Hu].
  apply lang_non_space_plus in Hv as [Hvne Hv].
  apply lang_non_space_plus in Ht as [Htne Ht].
  destruct u as [|a u _] using rev_ind; [done|].
  destruct t as [|b t]; [done|].
  apply Forall_app in Hu as [_ Ha]. apply Forall_inv in Ha.
  apply Forall_inv in Ht as Hb.
  exists (pre ++ u), a, v, b, (t ++ post).
  split; [|done]. by repeat (progress (rewrite <- ?app_assoc; simpl)).
Qed.

Lemma email_test_complete (pre domain post : JsString.t) (a b : N) :
  JsString.is_white_space a = false ->
  domain <> [] ->
  Forall (fun c => JsString.is_white_space c = false) domain ->
  JsString.is_white_space b = false ->
  RegExp.test email_pattern (pre ++ [a; 64%N] ++ domain ++ [46%N; b] ++ post)
    = true.
Proof.
  intros Ha Hvne Hv Hb. apply test_lang.
  exists pre, ([a] ++ [64%N] ++ domain ++ [46%N] ++ [b]), post. split.
  { by repeat (progress (rewrite <- ?app_assoc; simpl)). }
  unfold email_pattern.
  constructor; [apply lang_non_space_plus; by repeat constructor|].
  constructor; [by apply lang_char|].
  constructor; [by apply lang_non_space_plus|].
  constructor; [by apply lang_char|].
  apply lang_non_space_plus; by repeat constructor.
Qed.

(** X11. The email test of both pages accepts exactly the texts that
    contain, anywhere, a non-blank character, an [@], one or more non-blank
    characters, a dot and a non-blank character, in this order and
    adjacent. *)
Theorem email_test_spec (s : JsString.t) :
  RegExp.test email_pattern s = true <->
  exists pre a domain b post,
    s = pre ++ [a; 64%N] ++ domain ++ [46%N; b] ++ post /\
    JsString.is_white_space a = false /\
    domain <> [] /\
    Forall (fun c => JsString.is_white_space c = false) domain /\
    JsString.is_white_space b = false.
Proof.
  split.
  - apply email_test_sound.
  - intros (pre & a & v & b & post & -> & Ha & Hvne & Hv & Hb).
    by apply email_test_complete.
Qed.


(** X13. A text that passes the email test has at least five code units,
    among them an [@] and, after it, a dot. *)
Theorem email_test_needs (s : JsString.t) :
  RegExp.test email_pattern s = true ->
  5 <= length s /\
  exists i j, i < j /\ s !! i = Some 64%N /\ s !! j = Some 46%N.
Proof.
  intros (pre & a & v & b & post & -> & _ & Hv & _)%email_test_sound.
  destruct v as [|c v]; [done|]. split.
  - repeat (progress (rewrite ?length_app; simpl)). lia.
  - exists (length (pre ++ [a])), (length (pre ++ [a; 64%N] ++ c :: v)).
    split; [repeat (progress (rewrite ?length_app; simpl)); lia|]. split.
    + replace (pre ++ [a; 64%N] ++ (c :: v) ++ [46%N; b] ++ post)
        with ((pre ++ [a]) ++ 64%N :: ((c :: v) ++ [46%N; b] ++ post))
        by (by repeat (progress (rewrite <- ?app_assoc; simpl))).
      by apply list_lookup_middle.
    + replace (pre ++ [a; 64%N] ++ (c :: v) ++ [46%N; b] ++ post)
        with ((pre ++ [a; 64%N] ++ c :: v) ++ 46%N :: (b :: post))
        by (by repeat (progress (rewrite <- ?app_assoc; simpl))).
      by apply list_lookup_middle.
Qed.

(** ** Validation *)

Lemma trimStart_nil (s : JsString.t) :
  JsString.trimStart s = [] <->
  Forall (fun c => JsString.is_white_space c = true) s.
Proof.
  induction s as [|c s IH]; simpl; [by split|].
  destruct (JsString.is_white_space c) eqn:Hc.
  - rewrite IH. split; [by constructor|by inversion 1].
  - split; [done|]. inversion 1; congruence.
Qed.

Lemma trimStart_blank (s : JsString.t) :
  Forall (fun c => JsString.is_white_space c = true) (JsString.trimStart s) ->
  JsString.trimStart s = [].
Proof.
  induction s as [|c s IH]; simpl; [done|].
  destruct (JsString.is_white_space c) eqn:Hc; [done|].
  inversion 1; congruence.
Qed.

(** [!s.trim()] holds exactly of the texts made of blanks only. *)
Lemma trim_falsy (s : JsString.t) :
  JsString.falsy (JsString.trim s) = true <->
  Forall (fun c => JsString.is_white_space c = true) s.
Proof.
  unfold JsString.trim, JsString.trimEnd.
  assert (forall l : JsString.t, JsString.falsy l = true <-> l = []) as Hf.
  { intros []; by split. }
  rewrite Hf. split.
  - intros Hnil. apply (f_equal (@rev N)) in Hnil. rewrite rev_involutive in Hnil.
    simpl in Hnil. apply trimStart_nil in Hnil.
    apply trimStart_nil, trimStart_blank.
    apply List.Forall_rev in Hnil. by rewrite rev_involutive in Hnil.
  - intros Hall. apply trimStart_nil in Hall. rewrite Hall. reflexivity.
Qed.

Lemma email_test_empty : RegExp.test email_pattern [] = false.
Proof. reflexivity. Qed.

Lemma register_email_ok formData :
  RegisterPage.email_error formData = None <->
  RegExp.test email_pattern (RegisterPage.email formData) = true.
Proof.
  unfold RegisterPage.email_error.
  destruct (RegisterPage.email formData) as [|c s] eqn:He; simpl.
  - split; [done|]. by rewrite email_test_empty.
  - destruct (RegExp.test _ _); by split.
Qed.

Lemma register_password_ok formData :
  RegisterPage.password_error formData = None <->
  6 <= length (RegisterPage.password formData).
Proof.
  unfold RegisterPage.password_error.
  destruct (RegisterPage.password formData) as [|c s] eqn:He; simpl.
  - split; [done|lia].
  - destruct (Nat.ltb_spec (S (length s)) 6); split; try done; lia.
Qed.

Lemma login_email_ok formData :
  LoginPage.email_error formData = None <->
  RegExp.test email_pattern (LoginPage.email formData) = true.
Proof.
  unfold LoginPage.email_error.
  destruct (LoginPage.email formData) as [|c s] eqn:He; simpl.
  - split; [done|]. by rewrite email_test_empty.
  - destruct (RegExp.test _ _); by split.
Qed.

Lemma login_password_ok formData :
  LoginPage.password_error formData = None <->
  6 <= length (LoginPage.password formData).
Proof.
  unfold LoginPage.password_error.
  destruct (LoginPage.password formData) as [|c s] eqn:He; simpl.
  - split; [done|lia].
  - destruct (Nat.ltb_spec (S (length s)) 6); split; try done; lia.
Qed.

Lemma register_valid_none formData acceptTerms :
  RegisterPage.valid formData acceptTerms = true <->
  RegisterPage.newErrors formData acceptTerms = RegisterPage.Errors.none.
Proof.
  unfold RegisterPage.valid, RegisterPage.Object_keys, RegisterPage.newErrors.
  simpl.
  destruct (RegisterPage.name_error _), (RegisterPage.email_error _),
    (RegisterPage.password_error _), (RegisterPage.confirmPassword_error _),
    (RegisterPage.general_error _); by split.
Qed.

Lemma register_name_ok formData :
  RegisterPage.name_error formData = None <->
  ~ Forall (fun c => JsString.is_white_space c = true) (RegisterPage.name formData).
Proof.
  unfold RegisterPage.name_error. rewrite <- trim_falsy.
  destruct (JsString.falsy _); split; try done; intros Hn; by destruct Hn.
Qed.

Lemma register_confirmPassword_ok formData :
  RegisterPage.confirmPassword_error formData = None <->
  RegisterPage.password formData = RegisterPage.confirmPassword formData.
Proof.
  unfold RegisterPage.confirmPassword_error. case_bool_decide as Hd.
  - split; [done|]. intros Heq. by destruct Hd.
  - split; [|done]. intros _.
    destruct (decide (RegisterPage.password formData =
                      RegisterPage.confirmPassword formData)); [done|].
    by destruct Hd.
Qed.

Lemma login_valid_none formData :
  LoginPage.valid formData = true <->
  LoginPage.newErrors formData = LoginPage.Errors.none.
Proof.
  unfold LoginPage.valid, LoginPage.Object_keys, LoginPage.newErrors. simpl.
  destruct (LoginPage.email_error _), (LoginPage.password_error _); by split.
Qed.

Lemma login_valid_iff formData :
  LoginPage.valid formData = true <->
  RegExp.test email_pattern (LoginPage.email formData) = true /\
  6 <= length (LoginPage.password formData).
Proof.
  rewrite login_valid_none. unfold LoginPage.newErrors, LoginPage.Errors.none.
  rewrite <- login_email_ok, <- login_password_ok. split.
  - by intros [= -> ->].
  - by intros (-> & ->).
Qed.

Lemma register_valid_iff formData acceptTerms :
  RegisterPage.valid formData acceptTerms = true <->
  ~ Forall (fun c => JsString.is_white_space c = true) (RegisterPage.name formData) /\
  RegExp.test email_pattern (RegisterPage.email formData) = true /\
  6 <= length (RegisterPage.password formData) /\
  RegisterPage.password formData = RegisterPage.confirmPassword formData /\
  acceptTerms = true.
Proof.
  rewrite register_valid_none.
  unfold RegisterPage.newErrors, RegisterPage.Errors.none.
  rewrite <- register_email_ok, <- register_password_ok, <- register_name_ok,
    <- register_confirmPassword_ok.
  assert (RegisterPage.general_error acceptTerms = None <-> acceptTerms = true)
    as Hterms by (by destruct acceptTerms).
  rewrite <- Hterms. split.
  - by intros [= -> -> -> -> ->].
  - by intros (-> & -> & -> & -> & ->).
Qed.

(** X14. The registration form passes [validateForm] exactly when the name
    has a character that is not a blank, the email passes the email test,
    the password has at least six code units and is repeated identically,
    and the terms are accepted; the errors handed to [setErrors] are then
    all absent. *)
Theorem register_validateForm_spec {P : Type} formData acceptTerms :
  RegisterPage.validateForm (P := P) formData acceptTerms =
    (Normal (RegisterPage.valid formData acceptTerms),
     [Handler.SetErrors (RegisterPage.newErrors formData acceptTerms)]) /\
  (RegisterPage.valid formData acceptTerms = true <->
   ~ Forall (fun c => JsString.is_white_space c = true) (RegisterPage.name formData) /\
   RegExp.test email_pattern (RegisterPage.email formData) = true /\
   6 <= length (RegisterPage.password formData) /\
   RegisterPage.password formData = RegisterPage.confirmPassword formData /\
   acceptTerms = true) /\
  (RegisterPage.valid formData acceptTerms = true ->
   RegisterPage.newErrors formData acceptTerms = RegisterPage.Errors.none).
Proof.
  split; [reflexivity|]. split.
  - apply register_valid_iff.
  - apply register_valid_none.
Qed.

(** X15. The login form passes [validateForm] exactly when the email passes
    the email test and the password has at least six code units. *)
Theorem login_validateForm_spec {P : Type} formData :
  LoginPage.validateForm (P := P) formData =
    (Normal (LoginPage.valid formData),
     [Handler.SetErrors (LoginPage.newErrors formData)]) /\
  (LoginPage.valid formData = true <->
   RegExp.test email_pattern (LoginPage.email formData) = true /\
   6 <= length (LoginPage.password formData)) /\
  (LoginPage.valid formData = true ->
   LoginPage.newErrors formData = LoginPage.Errors.none).
Proof.
  split; [reflexivity|]. split.
  - apply login_valid_iff.
  - apply login_valid_none.
Qed.

(** X16. Whoever can register can log in: an email and a password that pass
    the registration form also pass the login form. *)
Theorem register_valid_login_valid formData acceptTerms :
  RegisterPage.valid formData acceptTerms = true ->
  LoginPage.valid
    (LoginPage.mkData (RegisterPage.email formData)
       (RegisterPage.password formData)) = true.
Proof.
  intros (_ & He & Hp & _)%register_valid_iff.
  by apply login_valid_iff.
Qed.

(** ** Submission *)

Section Observations.

Context {E P : Type}.
Implicit Types (calls : list (Handler.Call E P)) (ps : list P).

Lemma parent_calls_app calls1 calls2 :
  Handler.parent_calls (calls1 ++ calls2) =
    Handler.parent_calls calls1 ++ Handler.parent_calls calls2.
Proof. apply flat_map_app. Qed.

Lemma parent_calls_Parent ps :
  Handler.parent_calls (E := E) (map Handler.Parent ps) = ps.
Proof. induction ps as [|p ps IH]; simpl; [done|]. by rewrite IH. Qed.

Lemma navigations_app calls1 calls2 :
  Handler.navigations (calls1 ++ calls2) =
    Handler.navigations calls1 ++ Handler.navigations calls2.
Proof. apply flat_map_app. Qed.

Lemma navigations_Parent ps :
  Handler.navigations (E := E) (map Handler.Parent ps) = [].
Proof. induction ps as [|p ps IH]; simpl; done. Qed.

Lemma isSubmitting_after_app b calls1 calls2 :
  Handler.isSubmitting_after b (calls1 ++ calls2) =
    Handler.isSubmitting_after (Handler.isSubmitting_after b calls1) calls2.
Proof. apply fold_left_app. Qed.

Lemma isSubmitting_after_Parent b ps :
  Handler.isSubmitting_after (E := E) b (map Handler.Parent ps) = b.
Proof. induction ps as [|p ps IH]; simpl; done. Qed.

Lemma errors_after_app (e : E) calls1 calls2 :
  Handler.errors_after e (calls1 ++ calls2) =
    Handler.errors_after (Handler.errors_after e calls1) calls2.
Proof. apply fold_left_app. Qed.

Lemma errors_after_Parent (e : E) ps :
  Handler.errors_after e (map Handler.Parent ps) = e.
Proof. induction ps as [|p ps IH]; simpl; done. Qed.

End Observations.

Ltac observe :=
  repeat first
    [ rewrite parent_calls_app | rewrite parent_calls_Parent
    | rewrite navigations_app | rewrite navigations_Parent
    | rewrite isSubmitting_after_app | rewrite isSubmitting_after_Parent
    | rewrite errors_after_app | rewrite errors_after_Parent
    | progress simpl ].

(** X17. Submitting the registration form never rejects, reaches the
    parent's [onRegister] only through a form that passed [validateForm],
    once and with the name and the email of that form, and asks the router
    for the login page only after [onRegister] has returned. *)
Theorem register_handleSubmit_guard {P : Type}
    (onRegister : JsString.t -> JsString.t -> Completion unit * list P)
    (router : string -> Completion unit) formData acceptTerms :
  let run := RegisterPage.handleSubmit onRegister router formData acceptTerms in
  let called :=
    onRegister (RegisterPage.name formData) (RegisterPage.email formData) in
  fst run = Normal tt /\
  Handler.parent_calls (snd run) =
    (if RegisterPage.valid formData acceptTerms then snd called else []) /\
  Handler.navigations (snd run) =
    (if RegisterPage.valid formData acceptTerms
     then match fst called with
          | Normal _ => ["/login?registered=true"]
          | Throw _ => []
          end
     else []).
Proof.
  cbv zeta. unfold RegisterPage.handleSubmit, RegisterPage.validateForm.
  destruct (RegisterPage.valid formData acceptTerms); simpl; [|done].
  destruct (onRegister _ _) as [[[]|e] ps]; simpl.
  - destruct (router _) as [[]|e]; simpl; observe; by rewrite ?app_nil_r.
  - observe. by rewrite ?app_nil_r.
Qed.

(** X18. Whatever [onRegister] and the router do, a submission that passed
    [validateForm] ends with [isSubmitting] false, and with the general
    failure message as the only error if one of them threw, with no error
    otherwise; a submission that did not pass leaves [isSubmitting] alone
    and shows the errors of [validateForm]. *)
Theorem register_handleSubmit_states {P : Type}
    (onRegister : JsString.t -> JsString.t -> Completion unit * list P)
    (router : string -> Completion unit) formData acceptTerms
    (isSubmitting : bool) (errors : RegisterPage.Errors.RegisterFormErrors) :
  let run := RegisterPage.handleSubmit onRegister router formData acceptTerms in
  let called :=
    onRegister (RegisterPage.name formData) (RegisterPage.email formData) in
  let failure :=
    RegisterPage.Errors.mk None None None None
      (Some "Falha no cadastro. Por favor, tente novamente.") in
  Handler.isSubmitting_after isSubmitting (snd run) =
    (if RegisterPage.valid formData acceptTerms then false else isSubmitting) /\
  Handler.errors_after errors (snd run) =
    (if RegisterPage.valid formData acceptTerms
     then match fst called, router "/login?registered=true" with
          | Normal _, Normal _ => RegisterPage.Errors.none
          | _, _ => failure
          end
     else RegisterPage.newErrors formData acceptTerms).
Proof.
  cbv zeta. unfold RegisterPage.handleSubmit, RegisterPage.validateForm.
  pose proof (proj1 (register_valid_none formData acceptTerms)) as Hnone.
  destruct (RegisterPage.valid formData acceptTerms); simpl; [|done].
  rewrite Hnone by done.
  destruct (onRegister _ _) as [[[]|e] ps]; simpl.
  - destruct (router _) as [[]|e]; simpl; by observe.
  - by observe.
Qed.

(** X19. Under [App], a login form that passes [validateForm] makes [App]
    remember a user with exactly the email typed and no name, then asks the
    router for the home page; a form that does not pass reaches neither
    [App] nor the router. *)
Theorem login_through_App (router : string -> Completion unit) formData
    (user : option App.User) :
  let run := LoginPage.handleSubmit App.handleLogin router formData in
  fst run = Normal tt /\
  App.user_after user (Handler.parent_calls (snd run)) =
    (if LoginPage.valid formData
     then Some (App.mkUser None (LoginPage.email formData))
     else user) /\
  Handler.navigations (snd run) =
    (if LoginPage.valid formData then ["/"] else []) /\
  Handler.isSubmitting_after false (snd run) = false.
Proof.
  cbv zeta. unfold LoginPage.handleSubmit, LoginPage.validateForm.
  destruct (LoginPage.valid formData); simpl; [|done].
  destruct (router _) as [[]|e]; simpl; by observe.
Qed.

(** X20. Under [App], registering never signs anybody in: whatever the
    form, the router and the user before, submitting the registration form
    leaves [App]'s user as it was; a form that passes is only logged to the
    console. *)
Theorem register_through_App (router : string -> Completion unit)
    formData acceptTerms (user : option App.User) :
  let run :=
    RegisterPage.handleSubmit App.handleRegister router formData acceptTerms in
  App.user_after user (Handler.parent_calls (snd run)) = user /\
  Handler.parent_calls (snd run) =
    (if RegisterPage.valid formData acceptTerms
     then [App.ConsoleLog "Usuário registrado:"
             (App.mkUser (Some (RegisterPage.name formData))
                (RegisterPage.email formData))]
     else []).
Proof.
  cbv zeta. unfold RegisterPage.handleSubmit, RegisterPage.validateForm.
  destruct (RegisterPage.valid formData acceptTerms); simpl; [|done].
  destruct (router _) as [[]|e]; simpl; by observe.
Qed.

(** X21. Submitting the login form never rejects; it reaches the parent's
    [onLogin] only through a form that passed [validateForm], once and with
    the email of that form, asks the router for the home page only after
    [onLogin] has returned, and in the end has [isSubmitting] false when the
    form passed and untouched when it did not. *)
Theorem login_handleSubmit_guard {P : Type}
    (onLogin : JsString.t -> Completion unit * list P)
    (router : string -> Completion unit) formData (isSubmitting : bool) :
  let run := LoginPage.handleSubmit onLogin router formData in
  let called := onLogin (LoginPage.email formData) in
  fst run = Normal tt /\
  Handler.parent_calls (snd run) =
    (if LoginPage.valid formData then snd called else []) /\
  Handler.navigations (snd run) =
    (if LoginPage.valid formData
     then match fst called with
          | Normal _ => ["/"]
          | Throw _ => []
          end
     else []) /\
  Handler.isSubmitting_after isSubmitting (snd run) =
    (if LoginPage.valid formData then false else isSubmitting).
Proof.
  cbv zeta. unfold LoginPage.handleSubmit, LoginPage.validateForm.
  destruct (LoginPage.valid formData); simpl; [|done].
  destruct (onLogin _) as [[[]|e] ps]; simpl.
  - destruct (router _) as [[]|e]; simpl; observe; by rewrite ?app_nil_r.
  - observe. by rewrite ?app_nil_r.
Qed.

(** ** The pages on concrete forms *)

Lemma email_test_spec_witness :
  RegExp.test email_pattern (JsString.of_ascii "ana@x.com") = true.
Proof.
  apply (proj2 (email_test_spec (JsString.of_ascii "ana@x.com"))).
  exists (JsString.of_ascii "an"), 97%N, (JsString.of_ascii "x"), 99%N,
    (JsString.of_ascii "om").
  repeat split; try done. by repeat constructor.
Defined.


Lemma email_test_needs_witness :
  5 <= length (JsString.of_ascii "a@b.c").
Proof.
  apply (email_test_needs (JsString.of_ascii "a@b.c")). reflexivity.
Defined.

Lemma register_validateForm_spec_witness :
  RegisterPage.valid
    (RegisterPage.mkData (JsString.of_ascii "Ana") (JsString.of_ascii "a@x.com")
       (JsString.of_ascii "secret") (JsString.of_ascii "secret")) true = true.
Proof.
  apply (proj1 (proj2 (register_validateForm_spec (P := App.Call)
           (RegisterPage.mkData (JsString.of_ascii "Ana")
              (JsString.of_ascii "a@x.com") (JsString.of_ascii "secret")
              (JsString.of_ascii "secret")) true))).
  split; [|by repeat split]. simpl. inversion 1 as [|? ? Hc]. discriminate Hc.
Defined.

Lemma login_validateForm_spec_witness :
  LoginPage.valid
    (LoginPage.mkData (JsString.of_ascii "a@x.com") (JsString.of_ascii "secret"))
    = true.
Proof.
  apply (proj1 (proj2 (login_validateForm_spec (P := App.Call)
           (LoginPage.mkData (JsString.of_ascii "a@x.com")
              (JsString.of_ascii "secret"))))).
  split; [reflexivity|simpl; lia].
Defined.

Lemma register_valid_login_valid_witness :
  LoginPage.valid
    (LoginPage.mkData (JsString.of_ascii "a@x.com") (JsString.of_ascii "secret"))
    = true.
Proof.
  apply (register_valid_login_valid
           (RegisterPage.mkData (JsString.of_ascii "Ana")
              (JsString.of_ascii "a@x.com") (JsString.of_ascii "secret")
              (JsString.of_ascii "secret")) true).
  reflexivity.
Defined.
